(** * Personal-Fin-Final: investor interest projection, ledger and storage

    A shallow embedding of the finance tracker's logic:
    - the ECMAScript [Date] arithmetic the components rely on
      ([MakeDay], [YearFromTime], local time against a fixed UTC offset);
    - [TransactionForm] ([maturityDate], [interestAmount]);
    - [InvestorDashboard] ([generateInterestEntries], [investorAccounts]);
    - [UpcomingMaturities] ([allEvents]) and [Dashboard] ([upcomingPayments]);
    - [storageService] over [localStorage].

    Modelling conventions.
    - A JS [Date] is its time value: milliseconds since the epoch, in [Z].
      Local time is UTC plus a fixed offset of [tz] minutes (no daylight
      saving); [TimeClip] is not modelled.
    - A calendar string "YYYY-MM-DD" is the record [IsoDate] of its three
      numbers, which is what [split('-').map(Number)] yields; the empty
      string is [None].
    - A JS [number] that carries money or a rate is an exact rational [Q];
      a number that carries a count or a timestamp is in [Z].
    - [localStorage] is the record of what is stored under each key of
      [STORAGE_KEYS], absent or parsed: [JSON.parse (JSON.stringify x)] is
      taken to be [x]. The [DEFAULT_CATEGORIES] array of the running page
      is part of the state, since [getCategories] returns it by reference.
    - A loop whose exit depends on dates runs on fuel computed from the
      dates; lemmas show the fuel is enough ([interestLoop_fuel],
      [fastForward_reaches_today]). *)

From Stdlib Require Import ZArith Lia List Bool QArith String Sorting.Sorted.
From stdpp Require Import base option list gmap strings pretty.
Import ListNotations.
Local Open Scope Z_scope.

(** ** ECMAScript date algorithms (ECMA-262, "Date Objects") *)

Module JSDate.

Definition msPerDay : Z := 86400000.
Definition msPerMinute : Z := 60000.

Definition Day (t : Z) : Z := t / msPerDay.
Definition TimeWithinDay (t : Z) : Z := t mod msPerDay.

Definition DayFromYear (y : Z) : Z :=
  365 * (y - 1970) + (y - 1969) / 4 - (y - 1901) / 100 + (y - 1601) / 400.

Definition InLeapYear (y : Z) : bool :=
  if negb (y mod 4 =? 0) then false
  else if negb (y mod 100 =? 0) then true
  else if negb (y mod 400 =? 0) then false
  else true.

Definition DaysInYear (y : Z) : Z := if InLeapYear y then 366 else 365.

(** [YearFromDay n] is the largest [y] with [DayFromYear y <= n]: the
    estimate from the mean year length is off by at most one. *)
Definition YearFromDay (n : Z) : Z :=
  let y := 1970 + (400 * n) / 146097 in
  if DayFromYear (y + 1) <=? n then y + 1
  else if DayFromYear y <=? n then y
  else y - 1.

Definition DayWithinYear (n : Z) : Z := n - DayFromYear (YearFromDay n).

(** Day of the year on which month [m] (0 = January) starts. *)
Definition MonthStart (leap : bool) (m : Z) : Z :=
  let l := if leap then 1 else 0 in
  if m =? 0 then 0
  else if m =? 1 then 31
  else if m =? 2 then 59 + l
  else if m =? 3 then 90 + l
  else if m =? 4 then 120 + l
  else if m =? 5 then 151 + l
  else if m =? 6 then 181 + l
  else if m =? 7 then 212 + l
  else if m =? 8 then 243 + l
  else if m =? 9 then 273 + l
  else if m =? 10 then 304 + l
  else if m =? 11 then 334 + l
  else 365 + l.

Definition MonthFromDay (n : Z) : Z :=
  let d := DayWithinYear n in
  let leap := InLeapYear (YearFromDay n) in
  if d <? MonthStart leap 1 then 0
  else if d <? MonthStart leap 2 then 1
  else if d <? MonthStart leap 3 then 2
  else if d <? MonthStart leap 4 then 3
  else if d <? MonthStart leap 5 then 4
  else if d <? MonthStart leap 6 then 5
  else if d <? MonthStart leap 7 then 6
  else if d <? MonthStart leap 8 then 7
  else if d <? MonthStart leap 9 then 8
  else if d <? MonthStart leap 10 then 9
  else if d <? MonthStart leap 11 then 10
  else 11.

Definition DateFromDay (n : Z) : Z :=
  DayWithinYear n - MonthStart (InLeapYear (YearFromDay n)) (MonthFromDay n) + 1.

Definition YearFromTime (t : Z) : Z := YearFromDay (Day t).
Definition MonthFromTime (t : Z) : Z := MonthFromDay (Day t).
Definition DateFromTime (t : Z) : Z := DateFromDay (Day t).

(** [MakeDay]: the month argument is any integer and is carried into the
    year; the date argument is any integer and is added as a day count. *)
Definition MakeDay (year month date : Z) : Z :=
  let ym := year + month / 12 in
  let mn := month mod 12 in
  DayFromYear ym + MonthStart (InLeapYear ym) mn + date - 1.

Definition MakeTime (hour min sec ms : Z) : Z :=
  hour * 3600000 + min * 60000 + sec * 1000 + ms.

Definition MakeDate (day time : Z) : Z := day * msPerDay + time.

(** Number of days of month [m] (0 = January) of year [y]. *)
Definition DaysInMonth (y m : Z) : Z :=
  MonthStart (InLeapYear y) (m + 1) - MonthStart (InLeapYear y) m.

(** The calendar string "YYYY-MM-DD", month 1 = January. *)
Record IsoDate : Type := mkIso { isoY : Z; isoM : Z; isoD : Z }.

Definition validIso (s : IsoDate) : Prop :=
  1 <= isoM s <= 12 /\ 1 <= isoD s <= DaysInMonth (isoY s) (isoM s - 1).

(** The year [new Date(y, m, d)] works with: 0..99 means 19xx. *)
Definition fullYear (y : Z) : Z :=
  if (0 <=? y) && (y <=? 99) then 1900 + y else y.

Section LocalTime.

(** Offset of local time from UTC, in minutes east of Greenwich
    ([-getTimezoneOffset()]). *)
Variable tz : Z.

Definition LocalTZA : Z := tz * msPerMinute.
Definition LocalTime (t : Z) : Z := t + LocalTZA.
Definition UTC (t : Z) : Z := t - LocalTZA.

(** Local midnight of the day number [n]. *)
Definition midnight (n : Z) : Z := UTC (MakeDate n (MakeTime 0 0 0 0)).

(** A time value that is local midnight of its own day. *)
Definition atMidnight (x : Z) : Prop := x = midnight (Day (LocalTime x)).

(** [new Date(y, m, d)]: local midnight of the day [MakeDay] builds. *)
Definition Date_ymd (y m d : Z) : Z :=
  midnight (MakeDay (fullYear y) m d).

(** [new Date("YYYY-MM-DD")]: a date-only string is read as UTC. *)
Definition Date_parse (s : IsoDate) : Z :=
  MakeDate (MakeDay (isoY s) (isoM s - 1) (isoD s)) 0.

Definition getFullYear (t : Z) : Z := YearFromTime (LocalTime t).
Definition getMonth (t : Z) : Z := MonthFromTime (LocalTime t).
Definition getDate (t : Z) : Z := DateFromTime (LocalTime t).
Definition getTime (t : Z) : Z := t.

Definition setDate (t : Z) (dt : Z) : Z :=
  let lt := LocalTime t in
  UTC (MakeDate (MakeDay (YearFromTime lt) (MonthFromTime lt) dt)
                (TimeWithinDay lt)).

Definition setFullYear (t : Z) (y : Z) : Z :=
  let lt := LocalTime t in
  UTC (MakeDate (MakeDay y (MonthFromTime lt) (DateFromTime lt))
                (TimeWithinDay lt)).

Definition setHours (t : Z) (h m s ms : Z) : Z :=
  let lt := LocalTime t in
  UTC (MakeDate (Day lt) (MakeTime h m s ms)).

(** The local calendar date shown by a [Date]. *)
Definition localIso (t : Z) : IsoDate :=
  mkIso (getFullYear t) (getMonth t + 1) (getDate t).

End LocalTime.

(** [d.toISOString().split('T')[0]]: the UTC calendar date. *)
Definition toISODate (t : Z) : IsoDate :=
  mkIso (YearFromTime t) (MonthFromTime t + 1) (DateFromTime t).

End JSDate.

Import JSDate.

(** ** types.ts *)

Inductive TransactionType : Type := INCOME | EXPENSE.

Inductive ReturnPeriod : Type :=
  Monthly | Quarterly | HalfYearly | Yearly | Maturity.

Record InvestorDetails : Type := mkInvestorDetails {
  investorName : string;
  roi : Q;
  returnPeriod : ReturnPeriod;
  durationMonths : Z;
  maturityDate : option IsoDate;      (* [None] is the empty string *)
  purpose : option string;
  periodicInterestAmount : option Q
}.

(** [tx_id] is the field [id]. *)
Record Transaction : Type := mkTransaction {
  tx_id : string;
  userId : string;
  amount : Q;
  type : TransactionType;
  category : string;
  paymentMode : option string;
  date : IsoDate;
  note : option string;
  timestamp : Z;
  investorDetails : option InvestorDetails;
  linkedTransactionId : option string
}.

Record User : Type := mkUser {
  user_id : string;
  user_name : string;
  createdAt : Z
}.

Record GroupedCategory : Type := mkGroup {
  group : string;
  items : list string
}.

Definition TransactionType_eqb (a b : TransactionType) : bool :=
  match a, b with
  | INCOME, INCOME | EXPENSE, EXPENSE => true
  | _, _ => false
  end.

Definition ReturnPeriod_eqb (a b : ReturnPeriod) : bool :=
  match a, b with
  | Monthly, Monthly | Quarterly, Quarterly | HalfYearly, HalfYearly
  | Yearly, Yearly | Maturity, Maturity => true
  | _, _ => false
  end.

(** The literal a return period is stored as. *)
Definition periodName (p : ReturnPeriod) : string :=
  match p with
  | Monthly => "Monthly"
  | Quarterly => "Quarterly"
  | HalfYearly => "Half-Yearly"
  | Yearly => "Yearly"
  | Maturity => "Maturity"
  end.

(** ** JavaScript truthiness and string helpers *)

(** A number is falsy when it is zero; an absent one is falsy too. *)
Definition truthy (x : Q) : bool := negb (Qeq_bool x 0).

Definition truthyOpt (x : option Q) : bool :=
  match x with Some v => truthy v | None => false end.

(** [x || 0] on an optional number. *)
Definition orZero (x : option Q) : Q :=
  match x with
  | Some v => if truthy v then v else 0%Q
  | None => 0%Q
  end.

Definition nonEmpty (s : string) : bool :=
  match s with EmptyString => false | String _ _ => true end.

(** [toLowerCase] on the ASCII letters. *)
Definition lowerAscii (c : Ascii.ascii) : Ascii.ascii :=
  let n := Ascii.N_of_ascii c in
  if ((65 <=? n) && (n <=? 90))%N then Ascii.ascii_of_N (n + 32) else c.

Fixpoint toLowerCase (s : string) : string :=
  match s with
  | EmptyString => EmptyString
  | String c r => String (lowerAscii c) (toLowerCase r)
  end.

(** [monthsToAdd] as each projection derives it from the return period. *)
Definition monthsToAdd (p : ReturnPeriod) : Z :=
  match p with
  | Monthly => 1
  | Quarterly => 3
  | HalfYearly => 6
  | Yearly => 12
  | Maturity => 0
  end.

(** The projected due date of period number [multiplier], as every
    projection computes it: [new Date(sY, sM - 1 + monthsToAdd * multiplier, sD)],
    then [setDate(0)] when the day of the month is not [sD] any more. *)
Definition periodDate (tz : Z) (sY sM sD months multiplier : Z) : Z :=
  let nextDate := Date_ymd tz sY (sM - 1 + months * multiplier) sD in
  if negb (getDate tz nextDate =? sD) then setDate tz nextDate 0 else nextDate.

(** ** components/TransactionForm.tsx *)

Module TransactionForm.

(** [date] and [duration] are the form's text fields: [None] is an empty
    field, and for [duration] also one that [parseInt] does not read. *)
Definition maturityDate (tz : Z) (date : option IsoDate) (duration : option Z)
  : option IsoDate :=
  match date, duration with
  | Some dt, Some months =>
      let targetDate := Date_ymd tz (isoY dt) (isoM dt - 1 + months) (isoD dt) in
      let yy := getFullYear tz targetDate in
      let mm := getMonth tz targetDate + 1 in
      let dd := getDate tz targetDate in
      Some (mkIso yy mm dd)
  | _, _ => None
  end.

(** [amount] and [roi] are text fields read by [parseFloat]: [None] is an
    empty field or one that is not a number. *)
Definition interestAmount (amount roi : option Q) (period : ReturnPeriod) : Q :=
  match amount, roi with
  | Some principal, Some rate =>
      if ReturnPeriod_eqb period Maturity then 0%Q
      else
        let annualInterest := ((principal * rate) / 100)%Q in
        match period with
        | Monthly => (annualInterest / 12)%Q
        | Quarterly => (annualInterest / 4)%Q
        | HalfYearly => (annualInterest / 2)%Q
        | Yearly => annualInterest
        | Maturity => 0%Q
        end
  | _, _ => 0%Q
  end.

End TransactionForm.

(** ** components/InvestorDashboard.tsx *)

Module InvestorDashboard.

Record VirtualTransaction : Type := mkVirtual {
  vtx : Transaction;
  isVirtual : option bool;
  relatedTransactionId : option string
}.

Record InvestorAccount : Type := mkAccount {
  name : string;
  totalPrincipal : Q;
  totalInterestAccrued : Q;
  totalPaid : Q;
  transactions : list VirtualTransaction
}.

Section Ledger.

Variable tz : Z.    (* local offset from UTC, minutes *)
Variable now : Z.   (* [new Date()] *)

(** End of today, local time. *)
Definition today : Z := setHours tz now 23 59 59 999.

(** The interest amount of one period (or of the whole term). *)
Definition ledgerInterestAmount (t : Transaction) (inv : InvestorDetails) : Q :=
  let stored := orZero (periodicInterestAmount inv) in
  if negb (truthy stored) && truthy (roi inv) then
    let annual := ((amount t * roi inv) / 100)%Q in
    match returnPeriod inv with
    | Monthly => (annual / 12)%Q
    | Quarterly => (annual / 4)%Q
    | HalfYearly => (annual / 2)%Q
    | Yearly => annual
    | Maturity => (annual * (inject_Z (durationMonths inv) / 12))%Q
    end
  else stored.

Definition maturityEntry (t : Transaction) (interest : Q) (mat : IsoDate)
  : VirtualTransaction :=
  mkVirtual
    (mkTransaction ("int-" +:+ tx_id t +:+ "-maturity") (userId t) interest
       EXPENSE "Interest Due" None mat (Some "Interest Due on Maturity")
       (getTime (Date_parse mat)) None None)
    (Some true) (Some (tx_id t)).

Definition periodicEntry (t : Transaction) (interest : Q) (p : ReturnPeriod)
    (nextDate count : Z) : VirtualTransaction :=
  mkVirtual
    (mkTransaction ("int-" +:+ tx_id t +:+ "-" +:+ pretty count) (userId t)
       interest EXPENSE "Interest Due" None (toISODate nextDate)
       (Some ("Interest Due (" +:+ periodName p +:+ ") #" +:+ pretty count))
       (getTime nextDate) None None)
    (Some true) (Some (tx_id t)).

(** [maturityDate && nextDate > new Date(maturityDate)] *)
Definition pastMaturity (mat : option IsoDate) (nextDate : Z) : bool :=
  match mat with
  | Some m => Date_parse m <? nextDate
  | None => false
  end.

(** The [while (nextDate <= today)] loop; [fuel] bounds the number of
    tests of the loop condition. *)
Fixpoint interestLoop (fuel : nat) (t : Transaction) (inv : InvestorDetails)
    (interest : Q) (months : Z) (nextDate multiplier count : Z)
  : list VirtualTransaction :=
  match fuel with
  | O => []
  | S fuel' =>
      if nextDate <=? today then
        let entry := periodicEntry t interest (returnPeriod inv) nextDate count in
        let multiplier' := multiplier + 1 in
        let nextDate' :=
          periodDate tz (isoY (date t)) (isoM (date t)) (isoD (date t))
                     months multiplier' in
        if pastMaturity (maturityDate inv) nextDate' then [entry]
        else entry :: interestLoop fuel' t inv interest months
                                   nextDate' multiplier' (count + 1)
      else []
  end.

(** Every period is at least 28 days long, which bounds the number of
    periods between the start month and today. *)
Definition interestFuel (t : Transaction) : nat :=
  S (Z.to_nat ((Day (LocalTime tz today)
                - Day (LocalTime tz (Date_ymd tz (isoY (date t))
                                               (isoM (date t) - 1) 1))) / 28)).

Definition generateInterestEntries (t : Transaction) : list VirtualTransaction :=
  match investorDetails t with
  | None => []
  | Some inv =>
      if negb (truthy (roi inv)) then []
      else
        let interest := ledgerInterestAmount t inv in
        if Qle_bool interest 0 then []
        else if ReturnPeriod_eqb (returnPeriod inv) Maturity then
          match maturityDate inv with
          | Some mat =>
              if Date_parse mat <=? today
              then [maturityEntry t interest mat]
              else []
          | None => []            (* [new Date('')] compares false *)
          end
        else
          let months := monthsToAdd (returnPeriod inv) in
          if months =? 0 then []
          else
            let nextDate :=
              periodDate tz (isoY (date t)) (isoM (date t)) (isoD (date t))
                         months 1 in
            interestLoop (interestFuel t) t inv interest months nextDate 1 1
  end.

(** The name a transaction is filed under: the investor of an income,
    the category of an expense; the empty string files it nowhere. *)
Definition ledgerName (t : Transaction) : string :=
  match type t, investorDetails t with
  | INCOME, Some inv =>
      if nonEmpty (investorName inv) then investorName inv else ""
  | INCOME, None => ""
  | EXPENSE, _ => category t
  end.

Definition isInvestorIncome (t : Transaction) : bool :=
  match type t, investorDetails t with
  | INCOME, Some inv => nonEmpty (investorName inv)
  | _, _ => false
  end.

Definition emptyAccount (n : string) : InvestorAccount :=
  mkAccount n 0 0 0 [].

Definition addInterest (acc : InvestorAccount) (intTx : VirtualTransaction)
  : InvestorAccount :=
  mkAccount (name acc) (totalPrincipal acc)
            (totalInterestAccrued acc + amount (vtx intTx))
            (totalPaid acc) (transactions acc ++ [intTx]).

(** The body of [transactions.forEach] in [investorAccounts]. *)
Definition fileTransaction (accounts : gmap string InvestorAccount)
    (t : Transaction) : gmap string InvestorAccount :=
  let n := ledgerName t in
  if negb (nonEmpty n) then accounts
  else
    let key := toLowerCase n in
    let acc0 :=
      match accounts !! key with
      | None => emptyAccount n
      | Some acc =>
          if isInvestorIncome t
          then mkAccount n (totalPrincipal acc) (totalInterestAccrued acc)
                         (totalPaid acc) (transactions acc)
          else acc
      end in
    let acc1 :=
      mkAccount (name acc0) (totalPrincipal acc0) (totalInterestAccrued acc0)
                (totalPaid acc0)
                (transactions acc0 ++ [mkVirtual t (Some false) None]) in
    let acc2 :=
      match type t, investorDetails t with
      | INCOME, Some _ =>
          let acc' :=
            mkAccount (name acc1) (totalPrincipal acc1 + amount t)
                      (totalInterestAccrued acc1) (totalPaid acc1)
                      (transactions acc1) in
          fold_left addInterest (generateInterestEntries t) acc'
      | INCOME, None => acc1
      | EXPENSE, _ =>
          mkAccount (name acc1) (totalPrincipal acc1)
                    (totalInterestAccrued acc1) (totalPaid acc1 + amount t)
                    (transactions acc1)
      end in
    <[key := acc2]> accounts.

(** [accounts] after the [forEach]: an object used as a map from keys to
    accounts (keys that name a member of [Object.prototype] are outside
    the model). *)
Definition accountsOf (txs : list Transaction) : gmap string InvestorAccount :=
  fold_left fileTransaction txs ∅.

Definition reported (acc : InvestorAccount) : bool :=
  match Qlt_le_dec 0 (totalPrincipal acc), Qlt_le_dec 0 (totalPaid acc) with
  | right _, right _ => false
  | _, _ => true
  end.

(** [Object.values(accounts).filter(...)]; the order of the values is
    not modelled. *)
Definition investorAccounts (txs : list Transaction) : list InvestorAccount :=
  List.filter reported (snd <$> map_to_list (accountsOf txs)).

Definition netBalance (acc : InvestorAccount) : Q :=
  ((totalPrincipal acc + totalInterestAccrued acc) - totalPaid acc)%Q.

End Ledger.

End InvestorDashboard.

(** ** components/UpcomingMaturities.tsx *)

Module UpcomingMaturities.

Inductive TimeFilter : Type := F30 | F60 | F90 | ALL.

Inductive EventType : Type := PRINCIPAL | INTEREST.

Record PaymentEvent : Type := mkEvent {
  ev_id : string;
  ev_type : EventType;
  ev_date : Z;
  ev_amount : Q;
  ev_investorName : string;
  ev_purpose : option string;
  ev_note : option string;
  ev_transactionId : string;
  ev_roi : Q;
  ev_period : ReturnPeriod;
  ev_dayCount : Z
}.

Definition isPrincipal (e : PaymentEvent) : bool :=
  match ev_type e with PRINCIPAL => true | INTEREST => false end.

Definition EventType_eqb (a b : EventType) : bool :=
  match a, b with
  | PRINCIPAL, PRINCIPAL | INTEREST, INTEREST => true
  | _, _ => false
  end.

(** [Math.ceil(a / b)] for a positive [b]. *)
Definition ceilDiv (a b : Z) : Z := - ((- a) / b).

Section Calendar.

Variable tz : Z.
Variable now : Z.
Variable timeFilter : TimeFilter.

(** Start of today, local time. *)
Definition today : Z := setHours tz now 0 0 0 0.

Definition endDate : Z :=
  match timeFilter with
  | ALL => setFullYear tz today (getFullYear tz today + 5)
  | F30 => setDate tz today (getDate tz today + 30)
  | F60 => setDate tz today (getDate tz today + 60)
  | F90 => setDate tz today (getDate tz today + 90)
  end.

Definition dayCount (d : Z) : Z := ceilDiv (getTime d - getTime today) (1000 * 3600 * 24).

Definition principalEvent (t : Transaction) (inv : InvestorDetails) (mDate : Z)
  : PaymentEvent :=
  mkEvent (tx_id t +:+ "-maturity") PRINCIPAL mDate (amount t)
          (investorName inv) (purpose inv) (note t) (tx_id t)
          (roi inv) (returnPeriod inv) (dayCount mDate).

Definition interestEvent (t : Transaction) (inv : InvestorDetails)
    (pia : Q) (nextDate : Z) : PaymentEvent :=
  mkEvent (tx_id t +:+ "-interest-" +:+ pretty (getTime nextDate)) INTEREST
          nextDate pia (investorName inv) (purpose inv) None (tx_id t)
          (roi inv) (returnPeriod inv) (dayCount nextDate).

(** The [while (safetyCounter < 50)] loop; [remaining] is
    [50 - safetyCounter]. *)
Fixpoint eventLoop (remaining : nat) (t : Transaction) (inv : InvestorDetails)
    (pia : Q) (mDate months : Z) (nextDate multiplier : Z) : list PaymentEvent :=
  match remaining with
  | O => []
  | S remaining' =>
      if mDate <? nextDate then []
      else
        let advance :=
          let multiplier' := multiplier + 1 in
          eventLoop remaining' t inv pia mDate months
            (periodDate tz (isoY (date t)) (isoM (date t)) (isoD (date t))
                        months multiplier')
            multiplier' in
        if today <=? nextDate then
          if endDate <? nextDate then []
          else interestEvent t inv pia nextDate :: advance
        else advance
  end.

Definition interestEvents (t : Transaction) (inv : InvestorDetails) (mDate : Z)
  : list PaymentEvent :=
  match periodicInterestAmount inv with
  | Some pia =>
      if truthy pia && negb (ReturnPeriod_eqb (returnPeriod inv) Maturity) then
        let months := monthsToAdd (returnPeriod inv) in
        if 0 <? months then
          eventLoop 50 t inv pia mDate months
            (periodDate tz (isoY (date t)) (isoM (date t)) (isoD (date t))
                        months 1)
            1
        else []
      else []
  | None => []
  end.

(** The body of [transactions.forEach] in [allEvents]. *)
Definition eventsOf (t : Transaction) : list PaymentEvent :=
  match investorDetails t with
  | None => []
  | Some inv =>
      match maturityDate inv with
      | None => []
      | Some mat =>
          let mDate := setHours tz (Date_parse mat) 0 0 0 0 in
          (if (today <=? mDate) && (mDate <=? endDate)
           then [principalEvent t inv mDate] else [])
          ++ interestEvents t inv mDate
      end
  end.

Definition allEvents (txs : list Transaction) : list PaymentEvent :=
  flat_map eventsOf txs.

End Calendar.

End UpcomingMaturities.

(** ** components/Dashboard.tsx *)

Module Dashboard.

Inductive PaymentType : Type := MATURITY | INTEREST.

Record Payment : Type := mkPayment {
  pay_id : string;
  originalTxId : string;
  pay_type : PaymentType;
  pay_date : Z;
  pay_amount : Q;
  pay_name : string;
  label : string
}.

Definition isMaturity (p : Payment) : bool :=
  match pay_type p with MATURITY => true | INTEREST => false end.

(** [payments.sort((a, b) => a.date.getTime() - b.date.getTime())]: a
    stable sort by ascending date. *)
Fixpoint insertByDate (x : Payment) (l : list Payment) : list Payment :=
  match l with
  | [] => [x]
  | y :: l' =>
      if pay_date y <=? pay_date x then y :: insertByDate x l' else x :: l
  end.

Definition sortByDate (l : list Payment) : list Payment :=
  fold_left (fun acc x => insertByDate x acc) l [].

Section Upcoming.

Variable tz : Z.
Variable now : Z.

Definition today : Z := setHours tz now 0 0 0 0.

(** 30 days from now, at the present time of day. *)
Definition futureLimit : Z := setDate tz now (getDate tz today + 30).

(** The [while (nextDate < today)] loop; [fuel] bounds the number of
    tests of the loop condition. *)
Fixpoint fastForward (fuel : nat) (sY sM sD startDay months : Z)
    (nextDate multiplier : Z) : Z :=
  match fuel with
  | O => nextDate
  | S fuel' =>
      if nextDate <? today then
        let d := Date_ymd tz sY (sM - 1 + months * multiplier) sD in
        let d' := if negb (getDate tz d =? startDay) then setDate tz d 0 else d in
        fastForward fuel' sY sM sD startDay months d' (multiplier + 1)
      else nextDate
  end.

Definition forwardFuel (t : Transaction) : nat :=
  S (S (Z.to_nat ((Day (LocalTime tz today)
                   - Day (LocalTime tz (Date_ymd tz (isoY (date t))
                                                  (isoM (date t) - 1) 1))) / 28))).

(** The body of [transactions.forEach] in [upcomingPayments]. *)
Definition paymentsOf (t : Transaction) : list Payment :=
  match investorDetails t, type t with
  | Some inv, INCOME =>
      match maturityDate inv with
      | None => []        (* an invalid [matDate] compares false *)
      | Some mat =>
          let matDate :=
            setHours tz (Date_ymd tz (isoY mat) (isoM mat - 1) (isoD mat)) 0 0 0 0 in
          (if (today <=? matDate) && (matDate <=? futureLimit)
           then [mkPayment (tx_id t +:+ "-mat") (tx_id t) MATURITY matDate
                           (amount t) (investorName inv) "Principal Maturity"]
           else [])
          ++
          match periodicInterestAmount inv with
          | Some pia =>
              if truthy pia && negb (ReturnPeriod_eqb (returnPeriod inv) Maturity) then
                let period := returnPeriod inv in
                let months := monthsToAdd period in
                if 0 <? months then
                  let sY := isoY (date t) in
                  let sM := isoM (date t) in
                  let sD := isoD (date t) in
                  let startDate := Date_ymd tz sY (sM - 1) sD in
                  let startDay := getDate tz startDate in
                  let nextDate :=
                    fastForward (forwardFuel t) sY sM sD startDay months startDate 1 in
                  if (nextDate <=? futureLimit) && (nextDate <=? matDate) then
                    [mkPayment (tx_id t +:+ "-int-" +:+ pretty (getTime nextDate))
                               (tx_id t) INTEREST nextDate pia (investorName inv)
                               (periodName period +:+ " Interest")]
                  else []
                else []
              else []
          | None => []
          end
      end
  | _, _ => []
  end.

Definition upcomingPayments (txs : list Transaction) : list Payment :=
  sortByDate (flat_map paymentsOf txs).

End Upcoming.

End Dashboard.

(** ** constants.ts *)

Definition DEFAULT_CATEGORIES : list GroupedCategory :=
  [ mkGroup "Real Estate Projects"
      ["Galaxy"; "Tatva Developer"; "Kalpchandra Serenity"; "Bougainvilla";
       "Varaj Vihar"];
    mkGroup "Investor Payments"
      ["Investor Funds"; "Interest Payment"; "Principal Return"];
    mkGroup "Investments"
      ["SIP (Regular)"; "SIP (Gold)"; "Mutual Funds"; "Stocks"];
    mkGroup "Personal"
      ["Salary"; "Business Profit"; "Rental Income"; "Interest";
       "Mediclaim"; "Term Plan"; "LIC";
       "Home Loan"; "Personal Loan"; "Friends/Family Loan";
       "Utilities"; "Property Tax"; "Vehicle"; "Travel"; "School Fees";
       "Family Welfare"; "Groceries"; "Entertainment"; "Other"] ].

(** ** services/storageService.ts *)

Module StorageService.

(** [localStorage] under the keys of [STORAGE_KEYS]; [None] is a key that
    is absent ([getItem] returns [null]). *)
Record LocalStorage : Type := mkStorage {
  wt_users : option (list User);
  wt_transactions : option (list Transaction);
  wt_categories : option (list GroupedCategory)
}.

(** The state the service works on: the browser's storage and the
    [DEFAULT_CATEGORIES] array of the running page, which [getCategories]
    hands out by reference. *)
Record World : Type := mkWorld {
  localStorage : LocalStorage;
  defaultCategories : list GroupedCategory
}.

(** What a variable of type [GroupedCategory[]] points to: an array made by
    [JSON.parse], or the [DEFAULT_CATEGORIES] array itself. *)
Inductive CategoriesRef : Type :=
| Parsed (cats : list GroupedCategory)
| DefaultsRef.

Definition deref (w : World) (r : CategoriesRef) : list GroupedCategory :=
  match r with
  | Parsed cats => cats
  | DefaultsRef => defaultCategories w
  end.

(** An in-place change of the array a reference points to. *)
Definition mutate (r : CategoriesRef) (cats : list GroupedCategory) (w : World)
  : CategoriesRef * World :=
  match r with
  | Parsed _ => (Parsed cats, w)
  | DefaultsRef => (DefaultsRef, mkWorld (localStorage w) cats)
  end.

Definition setCategories (cats : list GroupedCategory) (w : World) : World :=
  mkWorld (mkStorage (wt_users (localStorage w))
                     (wt_transactions (localStorage w)) (Some cats))
          (defaultCategories w).

(** *** Users and transactions *)

Definition getUsers (w : World) : list User :=
  match wt_users (localStorage w) with
  | Some users => users
  | None => []
  end.

(** [sort((a, b) => b.timestamp - a.timestamp)]: stable, newest first. *)
Fixpoint insertNewest (x : Transaction) (l : list Transaction) : list Transaction :=
  match l with
  | [] => [x]
  | y :: l' =>
      if timestamp x <=? timestamp y then y :: insertNewest x l' else x :: l
  end.

Definition sortNewest (l : list Transaction) : list Transaction :=
  fold_left (fun acc x => insertNewest x acc) l [].

Definition getTransactions (uid : string) (w : World) : list Transaction :=
  let parsed :=
    match wt_transactions (localStorage w) with
    | Some txs => txs
    | None => []
    end in
  sortNewest (List.filter (fun t => String.eqb (userId t) uid) parsed).

(** *** Categories *)

Definition findGroup (g : string) (cats : list GroupedCategory)
  : option (nat * GroupedCategory) :=
  list_find (fun c => group c = g) cats.

Definition indexOf (item : string) (l : list string) : option nat :=
  fst <$> list_find (fun x => x = item) l.

Definition includes (item : string) (l : list string) : bool :=
  existsb (String.eqb item) l.

(** Take [item] out of the group at index [p] (first occurrence) and put it
    in front of the group at index [v] unless that group has it. *)
Definition moveItem (p v : nat) (item : string)
    (st : list GroupedCategory * bool) : list GroupedCategory * bool :=
  match fst st !! p, fst st !! v with
  | Some pg, Some vg =>
      match indexOf item (items pg) with
      | Some k =>
          let cats1 := <[p := mkGroup (group pg) (delete k (items pg))]> (fst st) in
          let cats2 :=
            if includes item (items vg) then cats1
            else <[v := mkGroup (group vg) (item :: items vg)]> cats1 in
          (cats2, true)
      | None => st
      end
  | _, _ => st
  end.

(** The two migrations of [getCategories] on a parsed array; the flag is
    [changed]. *)
Definition migrate (stored : list GroupedCategory) : list GroupedCategory * bool :=
  let personalGroup := findGroup "Personal" stored in
  let investorGroup := findGroup "Investor Payments" stored in
  (* MIGRATION 1 *)
  let st1 :=
    match personalGroup, investorGroup with
    | Some (p, _), Some (i, _) => moveItem p i "Investor Funds" (stored, false)
    | _, _ => (stored, false)
    end in
  (* MIGRATION 2 *)
  let '(st2, v, p') :=
    match findGroup "Investments" (fst st1) with
    | Some (v, _) => (st1, v, fst <$> personalGroup)
    | None =>
        let g := mkGroup "Investments" ["Mutual Funds"; "Stocks"] in
        match findGroup "Personal" (fst st1) with
        | Some (pIndex, _) =>
            ((take pIndex (fst st1) ++ g :: drop pIndex (fst st1), true),
             pIndex, S <$> (fst <$> personalGroup))
        | None =>
            ((fst st1 ++ [g], true), length (fst st1), fst <$> personalGroup)
        end
    end in
  match p' with
  | Some p => moveItem p v "SIP (Gold)" (moveItem p v "SIP (Regular)" st2)
  | None => st2
  end.

Definition getCategories (w : World) : CategoriesRef * World :=
  match wt_categories (localStorage w) with
  | Some stored =>
      let '(categories, changed) := migrate stored in
      (Parsed categories, if changed then setCategories categories w else w)
  | None =>
      (DefaultsRef, setCategories (defaultCategories w) w)
  end.

Definition saveCategories (categories : list GroupedCategory) (w : World) : World :=
  setCategories categories w.

Definition resetCategories (w : World) : CategoriesRef * World :=
  (DefaultsRef, setCategories (defaultCategories w) w).

Definition sameName (a b : string) : bool :=
  String.eqb (toLowerCase a) (toLowerCase b).

Definition ensureInvestorCategory (investor : string) (w : World) : World :=
  let '(r0, w0) := getCategories w in
  let groupName := "Investor Payments" in
  let '(r1, w1, groupIndex) :=
    match findGroup groupName (deref w0 r0) with
    | Some (i, _) => (r0, w0, i)
    | None =>
        let '(r, w') := mutate r0 (deref w0 r0 ++ [mkGroup groupName []]) w0 in
        (r, w', length (deref w0 r0))
    end in
  let categories := deref w1 r1 in
  match categories !! groupIndex with
  | Some g =>
      if existsb (fun item => sameName item investor) (items g) then w1
      else
        let '(r2, w2) :=
          mutate r1 (<[groupIndex := mkGroup (group g) (items g ++ [investor])]>
                       categories) w1 in
        saveCategories (deref w2 r2) w2
  | None => w1
  end.

(** *** Writes to users and transactions *)

Definition setUsers (users : list User) (w : World) : World :=
  mkWorld (mkStorage (Some users) (wt_transactions (localStorage w))
                     (wt_categories (localStorage w)))
          (defaultCategories w).

Definition setTransactions (txs : list Transaction) (w : World) : World :=
  mkWorld (mkStorage (wt_users (localStorage w)) (Some txs)
                     (wt_categories (localStorage w)))
          (defaultCategories w).

(** [saveUser]; [uuid] is the value of [crypto.randomUUID()] and [nowMs]
    that of [Date.now()]. *)
Definition saveUser (uuid : string) (nowMs : Z) (userName : string) (w : World)
  : User * World :=
  let users := getUsers w in
  let newUser := mkUser uuid userName nowMs in
  (newUser, setUsers (users ++ [newUser]) w).

Definition parsedTransactions (w : World) : list Transaction :=
  match wt_transactions (localStorage w) with
  | Some txs => txs
  | None => []
  end.

(** [addTransaction]; the [id] and [timestamp] of the argument are not
    part of its type and are set here. *)
Definition addTransaction (uuid : string) (nowMs : Z) (transaction : Transaction)
    (w : World) : Transaction * World :=
  let parsed := parsedTransactions w in
  let newTx :=
    mkTransaction uuid (userId transaction) (amount transaction)
      (type transaction) (category transaction) (paymentMode transaction)
      (date transaction) (note transaction) nowMs
      (investorDetails transaction) (linkedTransactionId transaction) in
  (newTx, setTransactions (parsed ++ [newTx]) w).

Definition updateTransaction (updatedTx : Transaction) (w : World) : World :=
  match wt_transactions (localStorage w) with
  | None => w
  | Some parsed =>
      match list_find (fun t => tx_id t = tx_id updatedTx) parsed with
      | Some (index, _) => setTransactions (<[index := updatedTx]> parsed) w
      | None => w
      end
  end.

Definition deleteTransaction (id : string) (w : World) : World :=
  match wt_transactions (localStorage w) with
  | None => w
  | Some parsed =>
      setTransactions
        (List.filter (fun t => negb (String.eqb (tx_id t) id)) parsed) w
  end.

(** All the items of all the groups. *)
Definition allItems (cats : list GroupedCategory) : list string :=
  flat_map items cats.

(** The items of the (first) "Investor Payments" group. *)
Definition investorItems (cats : list GroupedCategory) : list string :=
  match findGroup "Investor Payments" cats with
  | Some (_, g) => items g
  | None => []
  end.

Definition hasInvestorGroup (cats : list GroupedCategory) : Prop :=
  is_Some (findGroup "Investor Payments" cats).

(** The categories are stored and [getCategories] finds nothing to
    migrate in them ([changed] stays false). *)
Definition needsNoMigration (w : World) : Prop :=
  exists stored,
    wt_categories (localStorage w) = Some stored /\ snd (migrate stored) = false.

(** No two items are equal up to case. *)
Definition caseDistinct (l : list string) : Prop := NoDup (map toLowerCase l).

End StorageService.

(** ** The specification's notions, stated from its words *)

Module Spec.

(** "start date plus [n] calendar months", with "the day clamped to the
    last day of that target month". *)
Definition addMonthsClamped (s : IsoDate) (n : Z) : IsoDate :=
  let total := isoM s - 1 + n in
  let y := isoY s + total / 12 in
  let m := total mod 12 in
  mkIso y (m + 1) (Z.min (isoD s) (DaysInMonth y m)).

(** The day a calendar date falls on, counted from the epoch. *)
Definition dayNumber (s : IsoDate) : Z :=
  MakeDay (isoY s) (isoM s - 1) (isoD s).

(** "N x (1/3/6/12) calendar months". *)
Definition monthsPerPeriod (p : ReturnPeriod) : Z :=
  match p with
  | Monthly => 1 | Quarterly => 3 | HalfYearly => 6 | Yearly => 12
  | Maturity => 0
  end.

(** "periods-per-year (12/4/2/1 for Monthly/Quarterly/Half-Yearly/Yearly)". *)
Definition periodsPerYear (p : ReturnPeriod) : Q :=
  match p with
  | Monthly => 12 | Quarterly => 4 | HalfYearly => 2 | Yearly => 1
  | Maturity => 1
  end.

(** *** The investor ledger *)

(** "a case-insensitive key of the investor name (income entries via
    investorDetails.investorName, expense entries via their category)";
    an entry without a name is filed nowhere. *)
Definition ledgerKey (t : Transaction) : option string :=
  match type t with
  | INCOME =>
      match investorDetails t with
      | Some inv =>
          if nonEmpty (investorName inv)
          then Some (toLowerCase (investorName inv)) else None
      | None => None
      end
  | EXPENSE =>
      if nonEmpty (category t) then Some (toLowerCase (category t)) else None
  end.

Definition filedUnder (key : string) (t : Transaction) : bool :=
  match ledgerKey t with
  | Some k => String.eqb k key
  | None => false
  end.

Definition isIncome (t : Transaction) : bool := TransactionType_eqb (type t) INCOME.
Definition isExpense (t : Transaction) : bool := TransactionType_eqb (type t) EXPENSE.

Definition Qsum (l : list Q) : Q := fold_right Qplus 0%Q l.

Definition incomesOf (key : string) (txs : list Transaction) : list Transaction :=
  List.filter (fun t => filedUnder key t && isIncome t) txs.

Definition expensesOf (key : string) (txs : list Transaction) : list Transaction :=
  List.filter (fun t => filedUnder key t && isExpense t) txs.

(** "summed principal from income transactions" *)
Definition principalOf (key : string) (txs : list Transaction) : Q :=
  Qsum (map amount (incomesOf key txs)).

(** "interest summed from projected due events up to today" *)
Definition interestOf (tz now : Z) (key : string) (txs : list Transaction) : Q :=
  Qsum (map (fun e => amount (InvestorDashboard.vtx e))
            (flat_map (InvestorDashboard.generateInterestEntries tz now)
                      (incomesOf key txs))).

(** "payments summed from expense transactions whose category matches the
    investor's name" *)
Definition paidOf (key : string) (txs : list Transaction) : Q :=
  Qsum (map amount (expensesOf key txs)).

(** "the casing from an income entry when one exists" (the most recent
    one); otherwise the category of the first payment. *)
Definition displayName (key : string) (txs : list Transaction) : string :=
  match List.find isIncome (rev (List.filter (filedUnder key) txs)) with
  | Some t =>
      match investorDetails t with
      | Some inv => investorName inv
      | None => ""
      end
  | None =>
      match List.filter (filedUnder key) txs with
      | t :: _ => category t
      | [] => ""
      end
  end.

(** What the ledger holds under [key] after [txs]. *)
Definition accountFor (tz now : Z) (key : string) (txs : list Transaction)
    (o : option InvestorDashboard.InvestorAccount) : Prop :=
  match o with
  | None => List.filter (filedUnder key) txs = []
  | Some acc =>
      List.filter (filedUnder key) txs <> [] /\
      InvestorDashboard.name acc = displayName key txs /\
      (InvestorDashboard.totalPrincipal acc == principalOf key txs)%Q /\
      (InvestorDashboard.totalInterestAccrued acc == interestOf tz now key txs)%Q /\
      (InvestorDashboard.totalPaid acc == paidOf key txs)%Q
  end.

End Spec.

(** ** Sample data *)

Module Samples.

(** A quarterly plan of one month: started 1 January 2024, matures
    1 February 2024. *)
Definition quarterly_one_month : Transaction :=
  mkTransaction "t1" "u1" 100000 INCOME "Investor Funds" None (mkIso 2024 1 1)
    None 0
    (Some (mkInvestorDetails "Asha" 12 Quarterly 1 (Some (mkIso 2024 2 1))
             None (Some 3000%Q)))
    None.

(** A monthly plan of ten years: started 15 January 2020, matures
    15 January 2030. *)
Definition monthly_ten_years : Transaction :=
  mkTransaction "t2" "u1" 100000 INCOME "Investor Funds" None (mkIso 2020 1 15)
    None 0
    (Some (mkInvestorDetails "Asha" 12 Monthly 120 (Some (mkIso 2030 1 15))
             None (Some 1000%Q)))
    None.

(** A monthly plan of six years started 15 January 2024. *)
Definition monthly_recent : Transaction :=
  mkTransaction "t3" "u1" 100000 INCOME "Investor Funds" None (mkIso 2024 1 15)
    None 0
    (Some (mkInvestorDetails "Asha" 12 Monthly 72 (Some (mkIso 2030 1 15))
             None (Some 1000%Q)))
    None.

(** A plan paid at maturity with a rate of zero: started 1 January 2023,
    matured 1 January 2024. *)
Definition maturity_zero_rate : Transaction :=
  mkTransaction "t4" "u1" 100000 INCOME "Investor Funds" None (mkIso 2023 1 1)
    None 0
    (Some (mkInvestorDetails "Asha" 0 Maturity 12 (Some (mkIso 2024 1 1))
             None None))
    None.

(** A plan paid at maturity at 12 percent: started 1 January 2023, matured
    1 January 2024. *)
Definition maturity_plan : Transaction :=
  mkTransaction "t5" "u1" 100000 INCOME "Investor Funds" None (mkIso 2023 1 1)
    None 0
    (Some (mkInvestorDetails "Asha" 12 Maturity 12 (Some (mkIso 2024 1 1))
             None None))
    None.

(** The page as loaded, with nothing in [localStorage]. *)
Definition empty_world : StorageService.World :=
  StorageService.mkWorld (StorageService.mkStorage None None None)
                         DEFAULT_CATEGORIES.

(** Categories of an older layout: no "Investor Payments" group, and
    "Investor Funds" filed under "Personal". *)
Definition legacy_world : StorageService.World :=
  StorageService.mkWorld
    (StorageService.mkStorage None None
       (Some [mkGroup "Investments" ["Mutual Funds"; "Stocks"];
              mkGroup "Personal" ["Investor Funds"; "Salary"]]))
    DEFAULT_CATEGORIES.

(** A small ledger: a loan from "Asha Rao", a payment filed under
    "asha rao", and a grocery bill. *)
Definition small_ledger : list Transaction :=
  [ mkTransaction "p1" "u1" 5000 EXPENSE "asha rao" None (mkIso 2024 3 1)
      None 0 None None;
    mkTransaction "l1" "u1" 120000 INCOME "Investor Funds" None (mkIso 2024 1 31)
      None 0
      (Some (mkInvestorDetails "Asha Rao" 12 Monthly 12 (Some (mkIso 2025 1 31))
               None (Some 1200%Q)))
      None;
    mkTransaction "g1" "u1" 800 EXPENSE "Groceries" None (mkIso 2024 3 2)
      None 0 None None ].

(** Stored categories with a migration pending: "Investor Funds" is still
    under "Personal". *)
Definition unmigrated_categories : list GroupedCategory :=
  [ mkGroup "Investor Payments" ["Interest Payment"; "Bob"];
    mkGroup "Investments" ["Mutual Funds"; "Stocks"];
    mkGroup "Personal" ["Investor Funds"; "Salary"] ].

(** A monthly plan started 15 January 2024 without a stored periodic
    amount. *)
Definition monthly_without_stored_amount : Transaction :=
  mkTransaction "t7" "u1" 100000 INCOME "Investor Funds" None (mkIso 2024 1 15)
    None 0
    (Some (mkInvestorDetails "Asha" 12 Monthly 72 (Some (mkIso 2030 1 15))
             None None))
    None.

(** A monthly plan of six months: started 15 January 2024, matures
    15 July 2024. *)
Definition monthly_six_months : Transaction :=
  mkTransaction "t8" "u1" 100000 INCOME "Investor Funds" None (mkIso 2024 1 15)
    None 0
    (Some (mkInvestorDetails "Asha" 12 Monthly 6 (Some (mkIso 2024 7 15))
             None (Some 1000%Q)))
    None.

End Samples.

Module JSDateFacts.

Lemma DayFromYear_succ y : DayFromYear (y + 1) = DayFromYear y + DaysInYear y.
Proof.
  unfold DayFromYear, DaysInYear, InLeapYear.
  replace (y + 1 - 1969) with (y - 1969 + 1) by lia.
  replace (y + 1 - 1901) with (y - 1901 + 1) by lia.
  replace (y + 1 - 1601) with (y - 1601 + 1) by lia.
  destruct (y mod 4 =? 0) eqn:E4; destruct (y mod 100 =? 0) eqn:E100;
    destruct (y mod 400 =? 0) eqn:E400; simpl;
    rewrite ?Z.eqb_eq, ?Z.eqb_neq in *; Z.div_mod_to_equations; lia.
Qed.

Lemma DaysInYear_bounds y : 365 <= DaysInYear y <= 366.
Proof. unfold DaysInYear. destruct (InLeapYear y); lia. Qed.

Lemma DayFromYear_lt a b : a < b -> DayFromYear a + 365 <= DayFromYear b.
Proof.
  intros Hab. unfold DayFromYear. Z.div_mod_to_equations. lia.
Qed.

Lemma YearFromDay_spec n :
  DayFromYear (YearFromDay n) <= n < DayFromYear (YearFromDay n + 1).
Proof.
  unfold YearFromDay. cbv zeta.
  destruct (Z.leb_spec (DayFromYear (1970 + 400 * n / 146097 + 1)) n);
    [|destruct (Z.leb_spec (DayFromYear (1970 + 400 * n / 146097)) n)].
  - split; [assumption|]. unfold DayFromYear in *. Z.div_mod_to_equations. lia.
  - split; assumption.
  - replace (1970 + 400 * n / 146097 - 1 + 1) with (1970 + 400 * n / 146097) by lia.
    split; [|assumption]. unfold DayFromYear in *. Z.div_mod_to_equations. lia.
Qed.

Lemma YearFromDay_unique n y :
  DayFromYear y <= n < DayFromYear (y + 1) -> YearFromDay n = y.
Proof.
  intros Hy. pose proof (YearFromDay_spec n) as Hs.
  destruct (Z.lt_total (YearFromDay n) y) as [Hlt|[Heq|Hgt]]; [|exact Heq|].
  - assert (YearFromDay n + 1 = y \/ YearFromDay n + 1 < y) as [E|L] by lia.
    + rewrite E in Hs. lia.
    + pose proof (DayFromYear_lt _ _ L). lia.
  - assert (y + 1 = YearFromDay n \/ y + 1 < YearFromDay n) as [E|L] by lia.
    + rewrite E in Hy. lia.
    + pose proof (DayFromYear_lt _ _ L). lia.
Qed.

(** Case analysis on a month index, and evaluation of the month table. *)
Ltac month_cases m :=
  let Hc := fresh "Hc" in
  assert (m = 0 \/ m = 1 \/ m = 2 \/ m = 3 \/ m = 4 \/ m = 5 \/ m = 6 \/
          m = 7 \/ m = 8 \/ m = 9 \/ m = 10 \/ m = 11) as Hc by lia;
  repeat (destruct Hc as [Hc|Hc]; [subst m|]); [..|subst m].

Ltac eval_months :=
  repeat match goal with
    | |- context [MonthStart ?l ?k] =>
        let v := eval vm_compute in (MonthStart l k) in
        change (MonthStart l k) with v
    | H : context [MonthStart ?l ?k] |- _ =>
        let v := eval vm_compute in (MonthStart l k) in
        change (MonthStart l k) with v in H
    end.

Ltac ltb_cases :=
  repeat match goal with
    | |- context [?a <? ?b] => destruct (Z.ltb_spec a b); try lia
    end.

Lemma DaysInMonth_bounds y m : 0 <= m <= 11 -> 28 <= DaysInMonth y m <= 31.
Proof.
  intros Hm. unfold DaysInMonth.
  destruct (InLeapYear y); month_cases m; eval_months; lia.
Qed.

Lemma MonthStart_12 leap : MonthStart leap 12 = if leap then 366 else 365.
Proof. destruct leap; reflexivity. Qed.

(** A day inside month [m] of year [y] is read back as that year. *)
Lemma YearFromDay_MakeDay y m d :
  0 <= m <= 11 -> 1 <= d <= DaysInMonth y m ->
  YearFromDay (MakeDay y m d) = y.
Proof.
  intros Hm Hd. apply YearFromDay_unique.
  unfold MakeDay. rewrite Z.div_small, Z.mod_small, Z.add_0_r by lia.
  rewrite DayFromYear_succ. unfold DaysInYear.
  unfold DaysInMonth in Hd.
  destruct (InLeapYear y); month_cases m; eval_months; lia.
Qed.

Lemma MonthFromDay_MakeDay y m d :
  0 <= m <= 11 -> 1 <= d <= DaysInMonth y m ->
  MonthFromDay (MakeDay y m d) = m.
Proof.
  intros Hm Hd. unfold MonthFromDay, DayWithinYear.
  rewrite (YearFromDay_MakeDay y m d Hm Hd).
  unfold MakeDay. rewrite Z.div_small, Z.mod_small, Z.add_0_r by lia.
  unfold DaysInMonth in Hd.
  destruct (InLeapYear y); month_cases m; eval_months; cbv zeta;
    ltb_cases; reflexivity.
Qed.

Lemma DateFromDay_MakeDay y m d :
  0 <= m <= 11 -> 1 <= d <= DaysInMonth y m ->
  DateFromDay (MakeDay y m d) = d.
Proof.
  intros Hm Hd. unfold DateFromDay, DayWithinYear.
  rewrite (MonthFromDay_MakeDay y m d Hm Hd), (YearFromDay_MakeDay y m d Hm Hd).
  unfold MakeDay. rewrite Z.div_small, Z.mod_small, Z.add_0_r by lia. lia.
Qed.

(** [MakeDay] carries whole years out of the month argument. *)
Lemma MakeDay_norm y m d : MakeDay y m d = MakeDay (y + m / 12) (m mod 12) d.
Proof.
  unfold MakeDay.
  rewrite (Z.div_small (m mod 12) 12), Z.mod_mod, Z.add_0_r
    by (try apply Z.mod_pos_bound; lia).
  reflexivity.
Qed.

Lemma MakeDay_date y m d e : MakeDay y m (d + e) = MakeDay y m d + e.
Proof. unfold MakeDay. lia. Qed.

(** The first day of the next month comes [DaysInMonth] days later. *)
Lemma MakeDay_next_month y m :
  MakeDay y (m + 1) 1 = MakeDay y m 1 + DaysInMonth (y + m / 12) (m mod 12).
Proof.
  unfold MakeDay, DaysInMonth.
  pose proof (Z.mod_pos_bound m 12 ltac:(lia)) as Hb.
  assert (m mod 12 = 11 \/ m mod 12 < 11) as [H11|Hlt] by lia.
  - assert ((m + 1) / 12 = m / 12 + 1 /\ (m + 1) mod 12 = 0) as [-> ->]
      by (Z.div_mod_to_equations; lia).
    rewrite H11. replace (y + (m / 12 + 1)) with (y + m / 12 + 1) by lia.
    rewrite DayFromYear_succ. unfold DaysInYear.
    destruct (InLeapYear (y + m / 12)); destruct (InLeapYear (y + m / 12 + 1));
      eval_months; lia.
  - assert ((m + 1) / 12 = m / 12 /\ (m + 1) mod 12 = m mod 12 + 1) as [-> ->]
      by (Z.div_mod_to_equations; lia).
    lia.
Qed.

Lemma mod12_range m : 0 <= m mod 12 <= 11.
Proof. pose proof (Z.mod_pos_bound m 12 ltac:(lia)). lia. Qed.

Lemma MakeDay_overflow y m d :
  MakeDay y m d = MakeDay y (m + 1) (d - DaysInMonth (y + m / 12) (m mod 12)).
Proof.
  replace d with (1 + (d - 1)) at 1 by lia.
  replace (d - DaysInMonth (y + m / 12) (m mod 12))
    with (1 + (d - DaysInMonth (y + m / 12) (m mod 12) - 1)) by lia.
  rewrite !MakeDay_date, MakeDay_next_month. lia.
Qed.

(** The calendar date of a day built by [MakeDay], for any month argument. *)
Lemma civil_MakeDay y m d :
  1 <= d <= DaysInMonth (y + m / 12) (m mod 12) ->
  YearFromDay (MakeDay y m d) = y + m / 12 /\
  MonthFromDay (MakeDay y m d) = m mod 12 /\
  DateFromDay (MakeDay y m d) = d.
Proof.
  intros Hd. rewrite MakeDay_norm.
  pose proof (mod12_range m) as Hm.
  rewrite YearFromDay_MakeDay, MonthFromDay_MakeDay, DateFromDay_MakeDay
    by (assumption || lia).
  auto.
Qed.

(** Days of successive months are strictly ordered. *)
Lemma MakeDay_month_le y m n :
  0 <= n -> MakeDay y m 1 + 28 * n <= MakeDay y (m + n) 1.
Proof.
  intros Hn. revert m.
  pattern n. apply natlike_ind; [| |exact Hn].
  - intros m. replace (m + 0) with m by lia. lia.
  - intros k Hk IH m.
    replace (m + Z.succ k) with (m + k + 1) by lia.
    rewrite MakeDay_next_month.
    pose proof (DaysInMonth_bounds (y + (m + k) / 12) ((m + k) mod 12)
                  (mod12_range _)).
    specialize (IH m). lia.
Qed.

Lemma LocalTime_UTC tz x : LocalTime tz (UTC tz x) = x.
Proof. unfold LocalTime, UTC. lia. Qed.

Lemma UTC_LocalTime tz x : UTC tz (LocalTime tz x) = x.
Proof. unfold LocalTime, UTC. lia. Qed.

Lemma Day_MakeDate d t : 0 <= t < msPerDay -> Day (MakeDate d t) = d.
Proof.
  intros Ht. unfold Day, MakeDate, msPerDay in *.
  Z.div_mod_to_equations. lia.
Qed.

Lemma TimeWithinDay_MakeDate d t :
  0 <= t < msPerDay -> TimeWithinDay (MakeDate d t) = t.
Proof.
  intros Ht. unfold TimeWithinDay, MakeDate, msPerDay in *.
  Z.div_mod_to_equations. lia.
Qed.

Lemma MakeDate_Day t : MakeDate (Day t) (TimeWithinDay t) = t.
Proof.
  unfold MakeDate, Day, TimeWithinDay, msPerDay.
  Z.div_mod_to_equations. lia.
Qed.

Lemma Day_lt_inv tz x y :
  Day (LocalTime tz x) < Day (LocalTime tz y) -> x < y.
Proof.
  unfold Day, LocalTime, msPerDay. generalize (LocalTZA tz). intros o H.
  Z.div_mod_to_equations. lia.
Qed.

Lemma Day_midnight tz n : Day (LocalTime tz (midnight tz n)) = n.
Proof.
  unfold midnight. rewrite LocalTime_UTC. apply Day_MakeDate.
  unfold msPerDay, MakeTime. lia.
Qed.

Lemma midnight_le tz a b : midnight tz a <= midnight tz b <-> a <= b.
Proof. unfold midnight, UTC, MakeDate, MakeTime, msPerDay. lia. Qed.

Lemma midnight_lt tz a b : midnight tz a < midnight tz b <-> a < b.
Proof. unfold midnight, UTC, MakeDate, MakeTime, msPerDay. lia. Qed.

Lemma fullYear_id y : 100 <= y -> fullYear y = y.
Proof.
  intros Hy. unfold fullYear.
  destruct (Z.leb_spec 0 y); destruct (Z.leb_spec y 99); simpl; lia.
Qed.

Lemma Date_ymd_midnight tz y m d :
  Date_ymd tz y m d = midnight tz (MakeDay (fullYear y) m d).
Proof. reflexivity. Qed.

(** [periodDate] is local midnight of the day held back to the end of the
    target month. *)
Lemma periodDate_midnight tz sY sM sD months multiplier :
  1 <= sD <= 31 ->
  let mi := sM - 1 + months * multiplier in
  periodDate tz sY sM sD months multiplier =
  midnight tz (MakeDay (fullYear sY) mi
                 (Z.min sD (DaysInMonth (fullYear sY + mi / 12) (mi mod 12)))).
Proof.
  intros HsD mi. unfold periodDate. fold mi.
  rewrite Date_ymd_midnight.
  set (yr := fullYear sY).
  pose proof (mod12_range mi) as Hmi.
  pose proof (DaysInMonth_bounds (yr + mi / 12) (mi mod 12) Hmi) as Hdim.
  unfold getDate, DateFromTime. rewrite Day_midnight.
  destruct (Z_le_gt_dec sD (DaysInMonth (yr + mi / 12) (mi mod 12))) as [Hle|Hgt].
  - rewrite Z.min_l by lia.
    destruct (civil_MakeDay yr mi sD ltac:(lia)) as (_ & _ & ->).
    rewrite Z.eqb_refl. reflexivity.
  - rewrite Z.min_r by lia.
    rewrite (MakeDay_overflow yr mi sD).
    set (e := sD - DaysInMonth (yr + mi / 12) (mi mod 12)).
    pose proof (mod12_range (mi + 1)) as Hmi1.
    pose proof (DaysInMonth_bounds (yr + (mi + 1) / 12) ((mi + 1) mod 12) Hmi1).
    destruct (civil_MakeDay yr (mi + 1) e ltac:(lia)) as (HY & HM & HD).
    rewrite HD.
    destruct (Z.eqb_spec e sD) as [E|_]; [lia|]. simpl negb. cbv iota.
    unfold setDate, YearFromTime, MonthFromTime.
    rewrite Day_midnight, HY, HM. unfold midnight at 1.
    rewrite LocalTime_UTC, TimeWithinDay_MakeDate
      by (unfold msPerDay, MakeTime; lia).
    fold (midnight tz (MakeDay (yr + (mi + 1) / 12) ((mi + 1) mod 12) 0)).
    f_equal. rewrite <- MakeDay_norm.
    rewrite (MakeDay_overflow yr mi (DaysInMonth (yr + mi / 12) (mi mod 12))).
    f_equal. lia.
Qed.

End JSDateFacts.

Import JSDateFacts.

(** * Interest projection *)

Section Projection.

Variable tz : Z.

Lemma localIso_midnight_MakeDay y m d :
  1 <= d <= DaysInMonth (y + m / 12) (m mod 12) ->
  localIso tz (midnight tz (MakeDay y m d)) = mkIso (y + m / 12) (m mod 12 + 1) d.
Proof.
  intros Hd. unfold localIso, getFullYear, getMonth, getDate,
    YearFromTime, MonthFromTime, DateFromTime.
  rewrite Day_midnight.
  destruct (civil_MakeDay y m d Hd) as (-> & -> & ->). reflexivity.
Qed.

Lemma periodDate_localIso (start : IsoDate) (months N : Z) :
  validIso start -> 100 <= isoY start ->
  localIso tz (periodDate tz (isoY start) (isoM start) (isoD start) months N)
  = Spec.addMonthsClamped start (N * months).
Proof.
  intros [Hm Hd] Hy.
  pose proof (DaysInMonth_bounds (isoY start) (isoM start - 1) ltac:(lia)) as Hb.
  rewrite periodDate_midnight by lia. cbv zeta.
  rewrite (fullYear_id _ Hy).
  set (mi := isoM start - 1 + months * N).
  pose proof (DaysInMonth_bounds (isoY start + mi / 12) (mi mod 12)
                (mod12_range mi)) as Hdim.
  rewrite localIso_midnight_MakeDay by lia.
  unfold Spec.addMonthsClamped. cbv zeta.
  replace (isoM start - 1 + N * months) with mi by (unfold mi; lia).
  reflexivity.
Qed.

(** Later periods fall on later days. *)
Lemma periodDate_lt sY sM sD months a b :
  1 <= sD <= 31 -> 1 <= months -> a < b ->
  periodDate tz sY sM sD months a < periodDate tz sY sM sD months b.
Proof.
  intros HsD Hk Hab. rewrite !periodDate_midnight by assumption. cbv zeta.
  apply midnight_lt.
  set (yr := fullYear sY).
  set (ma := sM - 1 + months * a). set (mb := sM - 1 + months * b).
  pose proof (DaysInMonth_bounds (yr + ma / 12) (ma mod 12) (mod12_range ma)).
  pose proof (DaysInMonth_bounds (yr + mb / 12) (mb mod 12) (mod12_range mb)).
  assert (Hn : 0 <= mb - (ma + 1)) by (unfold ma, mb; nia).
  pose proof (MakeDay_month_le yr (ma + 1) (mb - (ma + 1)) Hn) as Hle.
  replace (ma + 1 + (mb - (ma + 1))) with mb in Hle by lia.
  rewrite MakeDay_next_month in Hle.
  unfold MakeDay in *. lia.
Qed.

Lemma periodDate_le sY sM sD months a b :
  1 <= sD <= 31 -> 1 <= months -> a <= b ->
  periodDate tz sY sM sD months a <= periodDate tz sY sM sD months b.
Proof.
  intros HsD Hk Hab.
  destruct (Z.eq_dec a b) as [->|Hne]; [lia|].
  pose proof (periodDate_lt sY sM sD months a b HsD Hk ltac:(lia)). lia.
Qed.

(** Period [n] lies at least [28 * n] days after the start month began. *)
Lemma periodDate_day_lower sY sM sD months n :
  1 <= sD <= 31 -> 1 <= months -> 0 <= n ->
  Day (LocalTime tz (Date_ymd tz sY (sM - 1) 1)) + 28 * n
  <= Day (LocalTime tz (periodDate tz sY sM sD months n)).
Proof.
  intros HsD Hk Hn. rewrite periodDate_midnight by assumption. cbv zeta.
  rewrite Date_ymd_midnight, !Day_midnight.
  set (yr := fullYear sY). set (mi := sM - 1 + months * n).
  pose proof (DaysInMonth_bounds (yr + mi / 12) (mi mod 12) (mod12_range mi)).
  assert (Hq : 0 <= months * n) by nia.
  pose proof (MakeDay_month_le yr (sM - 1) (months * n) Hq) as Hle.
  fold mi in Hle. unfold MakeDay in *. nia.
Qed.

End Projection.

Import InvestorDashboard.

Section LedgerFacts.

Variable tz : Z.
Variable now : Z.

Local Abbreviation pDate t months n :=
  (periodDate tz (isoY (date t)) (isoM (date t)) (isoD (date t)) months n).

(** The [i]-th entry of the loop carries the date of period
    [multiplier + i], its amount is the loop's interest amount. *)
Lemma interestLoop_lookup fuel t inv interest months multiplier count i e :
  interestLoop tz now fuel t inv interest months
               (pDate t months multiplier) multiplier count !! i = Some e ->
  timestamp (vtx e) = pDate t months (multiplier + Z.of_nat i) /\
  amount (vtx e) = interest /\
  tx_id (vtx e) = "int-" +:+ tx_id t +:+ "-" +:+ pretty (count + Z.of_nat i).
Proof.
  revert multiplier count i.
  induction fuel as [|fuel IH]; intros multiplier count i;
    cbn [interestLoop]; [discriminate|].
  destruct (_ <=? today tz now); [|discriminate].
  destruct (pastMaturity _ _).
  - destruct i as [|i]; cbn [lookup list_lookup]; [|discriminate].
    intros [= <-]. cbn [vtx timestamp amount tx_id periodicEntry].
    change (Z.of_nat 0) with 0. rewrite !Z.add_0_r. repeat split.
  - destruct i as [|i]; cbn [lookup list_lookup].
    + intros [= <-]. cbn [vtx timestamp amount tx_id periodicEntry].
      change (Z.of_nat 0) with 0. rewrite !Z.add_0_r. repeat split.
    + intros H. apply IH in H.
      replace (multiplier + Z.of_nat (S i)) with (multiplier + 1 + Z.of_nat i) by lia.
      replace (count + Z.of_nat (S i)) with (count + 1 + Z.of_nat i) by lia.
      exact H.
Qed.

(** Once the loop condition fails, more fuel changes nothing. *)
Lemma interestLoop_fuel fuel extra t inv interest months multiplier count :
  1 <= isoD (date t) <= 31 -> 1 <= months -> 0 <= multiplier ->
  (Day (LocalTime tz (today tz now))
   - Day (LocalTime tz (Date_ymd tz (isoY (date t)) (isoM (date t) - 1) 1))) / 28
  < multiplier + Z.of_nat fuel ->
  interestLoop tz now (fuel + extra) t inv interest months
               (pDate t months multiplier) multiplier count
  = interestLoop tz now fuel t inv interest months
                 (pDate t months multiplier) multiplier count.
Proof.
  intros HsD Hk. revert multiplier count.
  induction fuel as [|fuel IH]; intros multiplier count Hm Hbound.
  - simpl Nat.add.
    assert (Hgt : today tz now < pDate t months multiplier).
    { pose proof (periodDate_day_lower tz (isoY (date t)) (isoM (date t))
                    (isoD (date t)) months multiplier HsD Hk Hm) as Hlow.
      apply (Day_lt_inv tz).
      change (Z.of_nat 0) with 0 in Hbound.
      revert Hbound Hlow.
      generalize (Day (LocalTime tz (today tz now))).
      generalize (Day (LocalTime tz (pDate t months multiplier))).
      generalize (Day (LocalTime tz (Date_ymd tz (isoY (date t))
                                              (isoM (date t) - 1) 1))).
      intros a b c Hbound Hlow. Z.div_mod_to_equations. lia. }
    destruct extra as [|extra]; cbn [interestLoop]; [reflexivity|].
    destruct (Z.leb_spec (pDate t months multiplier) (today tz now)); [lia|].
    reflexivity.
  - cbn [Nat.add interestLoop].
    destruct (_ <=? today tz now); [|reflexivity].
    destruct (pastMaturity _ _); [reflexivity|].
    f_equal. apply IH; lia.
Qed.

Lemma generateInterestEntries_fuel extra t inv :
  investorDetails t = Some inv -> 1 <= isoD (date t) <= 31 ->
  1 <= monthsToAdd (returnPeriod inv) ->
  interestLoop tz now (interestFuel tz now t + extra) t inv
               (ledgerInterestAmount t inv) (monthsToAdd (returnPeriod inv))
               (pDate t (monthsToAdd (returnPeriod inv)) 1) 1 1
  = interestLoop tz now (interestFuel tz now t) t inv
                 (ledgerInterestAmount t inv) (monthsToAdd (returnPeriod inv))
                 (pDate t (monthsToAdd (returnPeriod inv)) 1) 1 1.
Proof.
  intros _ HsD Hk. apply interestLoop_fuel; try lia.
  unfold interestFuel.
  set (q := (Day (LocalTime tz (today tz now))
             - Day (LocalTime tz (Date_ymd tz (isoY (date t))
                                            (isoM (date t) - 1) 1))) / 28).
  destruct (Z_lt_le_dec q 0); [rewrite Nat2Z.inj_succ; lia|].
  rewrite Nat2Z.inj_succ, Z2Nat.id by lia. lia.
Qed.

(** What [generateInterestEntries] returns for a periodic plan. *)
Lemma generateInterestEntries_periodic t inv :
  investorDetails t = Some inv -> returnPeriod inv <> Maturity ->
  generateInterestEntries tz now t = [] \/
  (truthy (roi inv) = true /\
   Qle_bool (ledgerInterestAmount t inv) 0 = false /\
   generateInterestEntries tz now t
   = interestLoop tz now (interestFuel tz now t) t inv
       (ledgerInterestAmount t inv) (monthsToAdd (returnPeriod inv))
       (pDate t (monthsToAdd (returnPeriod inv)) 1) 1 1).
Proof.
  intros Hinv Hp. unfold generateInterestEntries. rewrite Hinv.
  destruct (truthy (roi inv)); cbn [negb]; [|auto].
  destruct (Qle_bool _ 0); [auto|].
  destruct (returnPeriod inv) eqn:E;
    cbn [ReturnPeriod_eqb monthsToAdd Z.eqb]; auto. congruence.
Qed.

(** What [generateInterestEntries] returns for a plan paid at maturity. *)
Lemma generateInterestEntries_maturity t inv :
  investorDetails t = Some inv -> returnPeriod inv = Maturity ->
  generateInterestEntries tz now t
  = if truthy (roi inv) then
      if Qle_bool (ledgerInterestAmount t inv) 0 then []
      else match maturityDate inv with
           | Some mat =>
               if Date_parse mat <=? today tz now
               then [maturityEntry t (ledgerInterestAmount t inv) mat]
               else []
           | None => []
           end
    else [].
Proof.
  intros Hinv Hp. unfold generateInterestEntries. rewrite Hinv, Hp.
  destruct (truthy (roi inv)); cbn [negb]; [|reflexivity].
  destruct (Qle_bool _ 0); reflexivity.
Qed.

(** Without a stored amount the ledger computes the amount from the rate. *)
Lemma ledgerInterestAmount_computed t inv :
  truthyOpt (periodicInterestAmount inv) = false -> truthy (roi inv) = true ->
  ledgerInterestAmount t inv
  = let annual := ((amount t * roi inv) / 100)%Q in
    match returnPeriod inv with
    | Monthly => (annual / 12)%Q
    | Quarterly => (annual / 4)%Q
    | HalfYearly => (annual / 2)%Q
    | Yearly => annual
    | Maturity => (annual * (inject_Z (durationMonths inv) / 12))%Q
    end.
Proof.
  intros Hst Hroi. unfold ledgerInterestAmount.
  assert (E : orZero (periodicInterestAmount inv) = 0%Q).
  { unfold orZero, truthyOpt in *.
    destruct (periodicInterestAmount inv) as [v|]; [|reflexivity].
    rewrite Hst. reflexivity. }
  rewrite E, Hroi. reflexivity.
Qed.

(** From the second entry on, the loop has checked the date against the
    maturity date before it emits. *)
Lemma interestLoop_checked fuel t inv interest months nextDate multiplier count e :
  pastMaturity (maturityDate inv) nextDate = false ->
  In e (interestLoop tz now fuel t inv interest months nextDate multiplier count) ->
  pastMaturity (maturityDate inv) (timestamp (vtx e)) = false.
Proof.
  revert nextDate multiplier count.
  induction fuel as [|fuel IH]; intros nextDate multiplier count Hok;
    cbn [interestLoop]; [intros []|].
  destruct (nextDate <=? today tz now); [|intros []].
  destruct (pastMaturity (maturityDate inv) (pDate t months (multiplier + 1))) eqn:E.
  - intros [<-|[]]. exact Hok.
  - intros [<-|Hin]; [exact Hok|]. exact (IH _ _ _ E Hin).
Qed.

Lemma interestLoop_later_checked fuel t inv interest months nextDate multiplier count i e :
  interestLoop tz now fuel t inv interest months nextDate multiplier count !! S i = Some e ->
  pastMaturity (maturityDate inv) (timestamp (vtx e)) = false.
Proof.
  destruct fuel as [|fuel]; cbn [interestLoop]; [discriminate|].
  destruct (nextDate <=? today tz now); [|discriminate].
  destruct (pastMaturity (maturityDate inv) (pDate t months (multiplier + 1))) eqn:E;
    cbn [lookup list_lookup]; [discriminate|].
  intros Hlk. eapply interestLoop_checked; [exact E|].
  apply list_elem_of_In. eapply list_elem_of_lookup_2. exact Hlk.
Qed.

End LedgerFacts.

Import UpcomingMaturities.

Section CalendarFacts.

Variable tz : Z.
Variable now : Z.
Variable timeFilter : TimeFilter.

Local Abbreviation pDate t months n :=
  (periodDate tz (isoY (date t)) (isoM (date t)) (isoD (date t)) months n).

(** Every event of the loop is the interest event of one of the periods
    the loop visits, inside the window and not after maturity. *)
Lemma eventLoop_In remaining t inv pia mDate months multiplier e :
  In e (eventLoop tz now timeFilter remaining t inv pia mDate months
                  (pDate t months multiplier) multiplier) ->
  exists n, multiplier <= n < multiplier + Z.of_nat remaining /\
            e = interestEvent tz now t inv pia (pDate t months n) /\
            today tz now <= pDate t months n <= endDate tz now timeFilter /\
            pDate t months n <= mDate.
Proof.
  revert multiplier.
  induction remaining as [|r IH]; intros multiplier; cbn [eventLoop];
    [intros []|].
  destruct (Z.ltb_spec mDate (pDate t months multiplier)); [intros []|].
  assert (Hadv : In e (eventLoop tz now timeFilter r t inv pia mDate months
                         (pDate t months (multiplier + 1)) (multiplier + 1)) ->
                 exists n, multiplier <= n < multiplier + Z.of_nat (S r) /\
                   e = interestEvent tz now t inv pia (pDate t months n) /\
                   today tz now <= pDate t months n <= endDate tz now timeFilter /\
                   pDate t months n <= mDate).
  { intros Hin. destruct (IH _ Hin) as (n & Hn & Hrest).
    exists n. split; [lia|exact Hrest]. }
  destruct (Z.leb_spec (today tz now) (pDate t months multiplier)); [|exact Hadv].
  destruct (Z.ltb_spec (endDate tz now timeFilter) (pDate t months multiplier));
    [intros []|].
  intros [<-|Hin]; [|exact (Hadv Hin)].
  exists multiplier. repeat split; lia.
Qed.

Lemma eventsOf_interest_In t e :
  In e (eventsOf tz now timeFilter t) -> ev_type e = UpcomingMaturities.INTEREST ->
  exists inv mat pia,
    investorDetails t = Some inv /\ maturityDate inv = Some mat /\
    periodicInterestAmount inv = Some pia /\ truthy pia = true /\
    returnPeriod inv <> Maturity /\
    In e (eventLoop tz now timeFilter 50 t inv pia
            (setHours tz (Date_parse mat) 0 0 0 0)
            (monthsToAdd (returnPeriod inv))
            (pDate t (monthsToAdd (returnPeriod inv)) 1) 1).
Proof.
  unfold eventsOf. destruct (investorDetails t) as [inv|] eqn:Einv; [|intros []].
  destruct (maturityDate inv) as [mat|] eqn:Emat; [|intros []].
  intros Hin Hty. apply in_app_or in Hin. destruct Hin as [Hin|Hin].
  - destruct (_ && _); [|destruct Hin].
    destruct Hin as [<-|[]]. discriminate Hty.
  - unfold interestEvents in Hin.
    destruct (periodicInterestAmount inv) as [pia|] eqn:Epia; [|destruct Hin].
    destruct (truthy pia) eqn:Etr; [|destruct Hin].
    destruct (ReturnPeriod_eqb (returnPeriod inv) Maturity) eqn:Ep; [destruct Hin|].
    cbn [andb negb] in Hin.
    destruct (0 <? monthsToAdd (returnPeriod inv)); [|destruct Hin].
    exists inv, mat, pia.
    split; [reflexivity|]. split; [exact Emat|]. split; [exact Epia|].
    split; [exact Etr|]. split; [|exact Hin].
    intros E. rewrite E in Ep. discriminate Ep.
Qed.

End CalendarFacts.

(** * Projected interest dates *)



(** The specification's example: a monthly investment started on Jan 31
    projects Feb 29 (Feb 28 outside leap years), then Mar 31. *)
Example january_31_monthly :
  map (fun n => localIso 330 (periodDate 330 2024 1 31 1 n)) [1; 2]
  = [mkIso 2024 2 29; mkIso 2024 3 31] /\
  map (fun n => localIso 330 (periodDate 330 2023 1 31 1 n)) [1; 2]
  = [mkIso 2023 2 28; mkIso 2023 3 31].
Proof. split; vm_compute; reflexivity. Qed.

(** * Maturity date of the form *)

(** What [maturityDate] computes: the clamped date when the start day exists
    in the target month, and otherwise the overflow carried into the month
    after it. *)
Lemma maturityDate_unclamped tz dt months :
  validIso dt -> 100 <= isoY dt ->
  let mi := isoM dt - 1 + months in
  let dim := DaysInMonth (isoY dt + mi / 12) (mi mod 12) in
  TransactionForm.maturityDate tz (Some dt) (Some months)
  = Some (if isoD dt <=? dim then Spec.addMonthsClamped dt months
          else mkIso (isoY dt + (mi + 1) / 12) ((mi + 1) mod 12 + 1)
                     (isoD dt - dim)).
Proof.
  intros [Hm Hd] Hy mi dim.
  pose proof (DaysInMonth_bounds (isoY dt) (isoM dt - 1) ltac:(lia)) as Hb.
  pose proof (DaysInMonth_bounds (isoY dt + mi / 12) (mi mod 12) (mod12_range mi)) as Hdim.
  unfold TransactionForm.maturityDate. cbv zeta.
  change (mkIso (getFullYear tz ?x) (getMonth tz ?x + 1) (getDate tz ?x))
    with (localIso tz x).
  rewrite Date_ymd_midnight, (fullYear_id _ Hy). fold mi. f_equal.
  destruct (Z.leb_spec (isoD dt) dim) as [Hle|Hgt].
  - rewrite localIso_midnight_MakeDay by (fold dim; lia).
    unfold Spec.addMonthsClamped. cbv zeta. fold mi. fold dim.
    rewrite Z.min_l by lia. reflexivity.
  - rewrite (MakeDay_overflow (isoY dt) mi (isoD dt)). fold dim.
    pose proof (DaysInMonth_bounds (isoY dt + (mi + 1) / 12) ((mi + 1) mod 12)
                  (mod12_range (mi + 1))).
    rewrite localIso_midnight_MakeDay by lia. reflexivity.
Qed.

(** C1 (the code departs from it). The form's maturity date is the start
    date plus the duration in months only while the start day exists in the
    target month: a start on 31 January 2024 with a duration of one month
    gives 2 March 2024, where the clamped date is 29 February 2024. *)
Theorem maturityDate_rolls_into_next_month :
  TransactionForm.maturityDate 330 (Some (mkIso 2024 1 31)) (Some 1)
  = Some (mkIso 2024 3 2) /\
  Spec.addMonthsClamped (mkIso 2024 1 31) 1 = mkIso 2024 2 29.
Proof. split; vm_compute; reflexivity. Qed.

(** * Interest entries and the maturity date *)

Import Samples.

(** C3 (the code departs from it). On 31 December 2024 the ledger
    projection of a quarterly plan started on 1 January 2024 that matures
    on 1 February 2024 emits one interest entry, stamped 1 April 2024: the
    first projected date is never compared with the maturity date. *)
Theorem first_interest_entry_may_follow_maturity :
  let now := Date_ymd 330 2024 11 31 in
  map (fun e => localIso 330 (timestamp (vtx e)))
      (generateInterestEntries 330 now quarterly_one_month)
  = [mkIso 2024 4 1] /\
  forall e, In e (generateInterestEntries 330 now quarterly_one_month) ->
            Date_parse (mkIso 2024 2 1) < timestamp (vtx e).
Proof.
  split; [vm_compute; reflexivity|].
  intros e He. vm_compute in He. destruct He as [<-|[]]. vm_compute. reflexivity.
Qed.

(** The payment calendar does compare every projected date, the first one
    included, with the maturity date. *)
Lemma allEvents_interest_not_after_maturity tz now timeFilter txs e :
  In e (allEvents tz now timeFilter txs) ->
  ev_type e = UpcomingMaturities.INTEREST ->
  exists t inv mat,
    In t txs /\ investorDetails t = Some inv /\ maturityDate inv = Some mat /\
    ev_date e <= setHours tz (Date_parse mat) 0 0 0 0.
Proof.
  intros Hin Hty. unfold allEvents in Hin. apply in_flat_map in Hin.
  destruct Hin as (t & Ht & He).
  destruct (eventsOf_interest_In tz now timeFilter t e He Hty)
    as (inv & mat & pia & Hinv & Hmat & _ & _ & _ & Hloop).
  apply eventLoop_In in Hloop. destruct Hloop as (n & _ & -> & _ & Hle).
  exists t, inv, mat. repeat split; assumption.
Qed.

(** * The payment calendar *)

Section CalendarComplete.

Variable tz : Z.
Variable now : Z.
Variable timeFilter : TimeFilter.

(** The loop reaches every period it has iterations for, as long as that
    period is inside the window and not after the maturity cut-off. *)
Lemma eventLoop_complete remaining t inv pia mDate months multiplier N :
  1 <= isoD (date t) <= 31 -> 1 <= months ->
  multiplier <= N < multiplier + Z.of_nat remaining ->
  let d := periodDate tz (isoY (date t)) (isoM (date t)) (isoD (date t)) months N in
  UpcomingMaturities.today tz now <= d <= endDate tz now timeFilter ->
  d <= mDate ->
  In (interestEvent tz now t inv pia d)
     (eventLoop tz now timeFilter remaining t inv pia mDate months
        (periodDate tz (isoY (date t)) (isoM (date t)) (isoD (date t))
                    months multiplier)
        multiplier).
Proof.
  intros HsD Hk HN d Hwin Hmat. revert multiplier HN.
  induction remaining as [|r IH]; intros multiplier HN; [simpl in HN; lia|].
  cbn [eventLoop].
  pose proof (periodDate_le tz (isoY (date t)) (isoM (date t)) (isoD (date t))
                months multiplier N HsD Hk ltac:(lia)) as Hle.
  fold d in Hle.
  set (cur := periodDate tz (isoY (date t)) (isoM (date t)) (isoD (date t))
                         months multiplier) in *.
  destruct (Z.ltb_spec mDate cur); [lia|].
  destruct (Z.eq_dec multiplier N) as [E|Hne].
  - subst N. fold cur in d. subst d.
    destruct (Z.leb_spec (UpcomingMaturities.today tz now) cur); [|lia].
    destruct (Z.ltb_spec (endDate tz now timeFilter) cur); [lia|].
    left. reflexivity.
  - assert (Hrest : In (interestEvent tz now t inv pia d)
              (eventLoop tz now timeFilter r t inv pia mDate months
                 (periodDate tz (isoY (date t)) (isoM (date t)) (isoD (date t))
                             months (multiplier + 1))
                 (multiplier + 1))) by (apply IH; lia).
    destruct (Z.leb_spec (UpcomingMaturities.today tz now) cur); [|exact Hrest].
    destruct (Z.ltb_spec (endDate tz now timeFilter) cur); [lia|].
    right. exact Hrest.
Qed.

End CalendarComplete.

(** In a time zone at or ahead of UTC the calendar's maturity cut-off is
    local midnight of the maturity date. *)
Lemma maturity_cutoff_is_local_midnight tz mat :
  0 <= tz < 1440 ->
  setHours tz (Date_parse mat) 0 0 0 0
  = midnight tz (MakeDay (isoY mat) (isoM mat - 1) (isoD mat)).
Proof.
  intros Htz. unfold setHours, Date_parse, midnight. cbv zeta.
  f_equal. f_equal.
  unfold Day, LocalTime, LocalTZA, MakeDate, msPerDay, msPerMinute.
  generalize (MakeDay (isoY mat) (isoM mat - 1) (isoD mat)). intros n.
  Z.div_mod_to_equations. lia.
Qed.




(** * Interest amounts *)



(** * Plans paid at maturity *)

(** In a time zone at or ahead of UTC, a date string read as UTC is not
    after the end of the local day exactly when its calendar day is not
    after the local calendar day. *)
Lemma parsed_date_on_or_before_today tz now mat :
  0 <= tz < 1440 ->
  Date_parse mat <= InvestorDashboard.today tz now <->
  Spec.dayNumber mat <= Day (LocalTime tz now).
Proof.
  intros Htz. unfold InvestorDashboard.today, setHours, Date_parse, Spec.dayNumber.
  cbv zeta.
  generalize (MakeDay (isoY mat) (isoM mat - 1) (isoD mat)).
  generalize (Day (LocalTime tz now)). intros l n.
  unfold UTC, MakeDate, MakeTime, LocalTZA, msPerDay, msPerMinute. lia.
Qed.




Example maturity_plan_entry :
  map (fun e => (date (vtx e), Qred (amount (vtx e))))
      (generateInterestEntries 330 (Date_ymd 330 2024 5 1) maturity_plan)
  = [(mkIso 2024 1 1, 12000%Q)] /\
  generateInterestEntries 330 (Date_ymd 330 2023 11 31) maturity_plan = [].
Proof. split; vm_compute; reflexivity. Qed.

(** * Principal maturity events *)

Lemma interestEvents_not_principal tz now timeFilter t inv mDate :
  List.filter isPrincipal (interestEvents tz now timeFilter t inv mDate) = [].
Proof.
  assert (H : forall l : list PaymentEvent,
             (forall e, In e l -> isPrincipal e = false) ->
             List.filter isPrincipal l = []).
  { induction l as [|x l IH]; intros Hall; [reflexivity|].
    cbn [List.filter]. rewrite (Hall x (or_introl eq_refl)).
    apply IH. intros e He. apply Hall. right. exact He. }
  apply H. intros e He. unfold interestEvents in He.
  destruct (periodicInterestAmount inv) as [pia|]; [|destruct He].
  destruct (_ && _); [|destruct He].
  destruct (0 <? _); [|destruct He].
  apply eventLoop_In in He. destruct He as (n & _ & -> & _). reflexivity.
Qed.




Example principal_event_in_thirty_days :
  let now := Date_ymd 330 2029 11 20 in
  map (fun e => (localIso 330 (ev_date e), Qred (ev_amount e), ev_dayCount e))
      (List.filter isPrincipal (allEvents 330 now F30 [monthly_recent]))
  = [(mkIso 2030 1 15, 100000%Q, 26)].
Proof. vm_compute. reflexivity. Qed.

(** * Storage *)

Import StorageService.

(** C9. A read of an absent key does not fail: [getUsers] returns the empty
    list, [getTransactions] returns the empty list for every user, and
    [getCategories] returns the default category groups (the page's
    [DEFAULT_CATEGORIES] array) and stores them. *)
Theorem absent_keys_read_as_empty_or_default (w : World) :
  (wt_users (localStorage w) = None -> getUsers w = []) /\
  (wt_transactions (localStorage w) = None ->
   forall uid, getTransactions uid w = []) /\
  (wt_categories (localStorage w) = None ->
   let '(r, w') := getCategories w in
   deref w' r = defaultCategories w /\
   wt_categories (localStorage w') = Some (defaultCategories w) /\
   wt_users (localStorage w') = wt_users (localStorage w) /\
   wt_transactions (localStorage w') = wt_transactions (localStorage w) /\
   defaultCategories w' = defaultCategories w /\
   (defaultCategories w = DEFAULT_CATEGORIES -> deref w' r = DEFAULT_CATEGORIES)).
Proof.
  split; [|split].
  - intros H. unfold getUsers. rewrite H. reflexivity.
  - intros H uid. unfold getTransactions. rewrite H. reflexivity.
  - intros H. unfold getCategories. rewrite H. cbn.
    repeat split. auto.
Qed.

Lemma absent_keys_read_as_empty_or_default_witness :
  getUsers empty_world = [] /\
  getTransactions "u1" empty_world = [] /\
  deref (snd (getCategories empty_world)) (fst (getCategories empty_world))
  = DEFAULT_CATEGORIES.
Proof.
  destruct (absent_keys_read_as_empty_or_default empty_world) as (Hu & Ht & Hc).
  split; [apply Hu; reflexivity|].
  split; [apply Ht; reflexivity|].
  specialize (Hc eq_refl).
  destruct (getCategories empty_world) as [r w'].
  destruct Hc as (_ & _ & _ & _ & _ & Hd). apply Hd. reflexivity.
Defined.

(** * The investor ledger *)

Section LedgerAggregation.

Variable tz : Z.
Variable now : Z.

Lemma Qsum_app (a b : list Q) : (Spec.Qsum (a ++ b) == Spec.Qsum a + Spec.Qsum b)%Q.
Proof.
  unfold Spec.Qsum. induction a as [|x a IH]; cbn [app fold_right].
  - ring.
  - rewrite IH. ring.
Qed.

Lemma Qsum_nil : Spec.Qsum [] = 0%Q.
Proof. reflexivity. Qed.

Lemma Qsum_cons x (l : list Q) : Spec.Qsum (x :: l) = (x + Spec.Qsum l)%Q.
Proof. reflexivity. Qed.

Lemma ledgerKey_ledgerName t :
  Spec.ledgerKey t
  = if nonEmpty (ledgerName t) then Some (toLowerCase (ledgerName t)) else None.
Proof.
  unfold Spec.ledgerKey, ledgerName.
  destruct (type t); [|reflexivity].
  destruct (investorDetails t) as [inv|]; [|reflexivity].
  destruct (nonEmpty (investorName inv)) eqn:E; [rewrite E|]; reflexivity.
Qed.

(** The interest entries of one income add their amounts to the account
    and leave the rest alone. *)
Lemma fold_addInterest entries acc :
  let r := fold_left addInterest entries acc in
  name r = name acc /\
  totalPrincipal r = totalPrincipal acc /\
  totalPaid r = totalPaid acc /\
  (totalInterestAccrued r
   == totalInterestAccrued acc
      + Spec.Qsum (map (fun e => amount (vtx e)) entries))%Q.
Proof.
  revert acc. induction entries as [|e entries IH]; intros acc; cbn [fold_left map].
  - repeat split. unfold Spec.Qsum. cbn [fold_right]. ring.
  - destruct (IH (addInterest acc e)) as (Hn & Hp & Hd & Hi).
    cbv zeta in *. rewrite Hn, Hp, Hd, Hi, Qsum_cons.
    cbn [addInterest name totalPrincipal totalPaid totalInterestAccrued].
    repeat split. ring.
Qed.

(** A transaction that is not filed under [key] leaves what the
    specification says about [key] as it was. *)
Lemma accountFor_skip key txs t o :
  Spec.filedUnder key t = false ->
  Spec.accountFor tz now key txs o -> Spec.accountFor tz now key (txs ++ [t]) o.
Proof.
  intros Hf.
  assert (E1 : List.filter (Spec.filedUnder key) (txs ++ [t])
               = List.filter (Spec.filedUnder key) txs)
    by (rewrite List.filter_app; cbn [List.filter]; rewrite Hf; apply app_nil_r).
  assert (E2 : Spec.incomesOf key (txs ++ [t]) = Spec.incomesOf key txs)
    by (unfold Spec.incomesOf; rewrite List.filter_app; cbn [List.filter];
        rewrite Hf; apply app_nil_r).
  assert (E3 : Spec.expensesOf key (txs ++ [t]) = Spec.expensesOf key txs)
    by (unfold Spec.expensesOf; rewrite List.filter_app; cbn [List.filter];
        rewrite Hf; apply app_nil_r).
  unfold Spec.accountFor, Spec.displayName, Spec.principalOf, Spec.interestOf,
    Spec.paidOf.
  rewrite E1, E2, E3. auto.
Qed.

(** The account [fileTransaction] stores for the transaction's own key. *)
Lemma fileTransaction_own m t :
  nonEmpty (ledgerName t) = true ->
  let key := toLowerCase (ledgerName t) in
  let base := match m !! key with Some acc => acc | None => emptyAccount (ledgerName t) end in
  exists acc2,
    fileTransaction tz now m t = <[key := acc2]> m /\
    name acc2 = (if Spec.isIncome t then ledgerName t else name base) /\
    (totalPrincipal acc2
     == totalPrincipal base + (if Spec.isIncome t then amount t else 0))%Q /\
    (totalInterestAccrued acc2
     == totalInterestAccrued base
        + (if Spec.isIncome t
           then Spec.Qsum (map (fun e => amount (vtx e))
                               (generateInterestEntries tz now t))
           else 0))%Q /\
    (totalPaid acc2
     == totalPaid base + (if Spec.isIncome t then 0 else amount t))%Q.
Proof.
  intros Hn key base. unfold fileTransaction. rewrite Hn. cbn [negb]. fold key.
  eexists. split; [reflexivity|].
  unfold ledgerName, isInvestorIncome, Spec.isIncome in *.
  destruct (type t) eqn:Ety; cbn [TransactionType_eqb].
  - destruct (investorDetails t) as [inv|] eqn:Einv; [|discriminate Hn].
    destruct (nonEmpty (investorName inv)) eqn:Ene; [|discriminate Hn].
    match goal with
    | |- context [fold_left addInterest ?es ?a] =>
        destruct (fold_addInterest es a) as (H1 & H2 & H3 & H4)
    end.
    cbv zeta in *. rewrite H1, H2, H3, H4. clear H1 H2 H3 H4.
    subst base. destruct (m !! key) as [acc|]; cbn; repeat split; ring.
  - subst base. destruct (m !! key) as [acc|];
      destruct (investorDetails t); cbn; repeat split; ring.
Qed.

Lemma filter_nil_and {A} (P Q : A -> bool) (l : list A) :
  List.filter P l = [] -> List.filter (fun x => P x && Q x) l = [].
Proof.
  induction l as [|x l IH]; cbn [List.filter]; [reflexivity|].
  destruct (P x); [discriminate|]. intros H. cbn [andb]. apply IH, H.
Qed.

(** Filing a transaction under its own key updates what the specification
    says about that key accordingly. *)
Lemma accountFor_add key txs t o acc2 :
  Spec.ledgerKey t = Some key ->
  Spec.accountFor tz now key txs o ->
  let base := match o with Some acc => acc | None => emptyAccount (ledgerName t) end in
  name acc2 = (if Spec.isIncome t then ledgerName t else name base) ->
  (totalPrincipal acc2
   == totalPrincipal base + (if Spec.isIncome t then amount t else 0))%Q ->
  (totalInterestAccrued acc2
   == totalInterestAccrued base
      + (if Spec.isIncome t
         then Spec.Qsum (map (fun e => amount (vtx e))
                             (generateInterestEntries tz now t))
         else 0))%Q ->
  (totalPaid acc2
   == totalPaid base + (if Spec.isIncome t then 0 else amount t))%Q ->
  Spec.accountFor tz now key (txs ++ [t]) (Some acc2).
Proof.
  intros Hkey Ho base Hname Hprin Hint Hpaid.
  assert (Hf : Spec.filedUnder key t = true)
    by (unfold Spec.filedUnder; rewrite Hkey; apply String.eqb_refl).
  assert (Hexp : Spec.isExpense t = negb (Spec.isIncome t))
    by (unfold Spec.isExpense, Spec.isIncome; destruct (type t); reflexivity).
  assert (EF : List.filter (Spec.filedUnder key) (txs ++ [t])
               = List.filter (Spec.filedUnder key) txs ++ [t])
    by (rewrite List.filter_app; cbn [List.filter]; rewrite Hf; reflexivity).
  assert (EI : Spec.incomesOf key (txs ++ [t])
               = Spec.incomesOf key txs ++ (if Spec.isIncome t then [t] else []))
    by (unfold Spec.incomesOf; rewrite List.filter_app; cbn [List.filter];
        rewrite Hf; cbn [andb]; destruct (Spec.isIncome t); reflexivity).
  assert (EE : Spec.expensesOf key (txs ++ [t])
               = Spec.expensesOf key txs ++ (if Spec.isIncome t then [] else [t]))
    by (unfold Spec.expensesOf; rewrite List.filter_app; cbn [List.filter];
        rewrite Hf, Hexp; cbn [andb]; destruct (Spec.isIncome t); reflexivity).
  assert (Hbase :
    (List.filter (Spec.filedUnder key) txs = [] -> name base = ledgerName t) /\
    (List.filter (Spec.filedUnder key) txs <> [] -> name base = Spec.displayName key txs) /\
    (totalPrincipal base == Spec.principalOf key txs)%Q /\
    (totalInterestAccrued base == Spec.interestOf tz now key txs)%Q /\
    (totalPaid base == Spec.paidOf key txs)%Q).
  { subst base. destruct o as [acc|]; cbn [Spec.accountFor] in Ho.
    - destruct Ho as (Hne & Hn & Hp & Hi & Hd).
      split; [intros E; contradiction|]. auto.
    - unfold Spec.principalOf, Spec.interestOf, Spec.paidOf,
        Spec.incomesOf, Spec.expensesOf.
      rewrite !(filter_nil_and _ _ _ Ho).
      split; [reflexivity|]. split; [intros E; contradiction|].
      cbn. repeat split; reflexivity. }
  destruct Hbase as (Hb0 & Hb1 & Hbp & Hbi & Hbd).
  cbn [Spec.accountFor]. split; [|split; [|split; [|split]]].
  - rewrite EF. intros E. apply app_eq_nil in E. destruct E as [_ E]. discriminate E.
  - rewrite Hname. unfold Spec.displayName. rewrite EF, rev_app_distr.
    cbn [rev app List.find].
    destruct (Spec.isIncome t) eqn:Einc.
    + unfold Spec.ledgerKey, Spec.isIncome, ledgerName in *.
      destruct (type t); [|discriminate Einc].
      destruct (investorDetails t) as [inv|]; [|discriminate Hkey].
      destruct (nonEmpty (investorName inv)); [reflexivity|discriminate Hkey].
    + destruct (List.filter (Spec.filedUnder key) txs) as [|x F] eqn:EFl.
      * rewrite (Hb0 eq_refl). cbn [rev List.find app].
        unfold Spec.isIncome, ledgerName in *.
        destruct (type t); [discriminate Einc|reflexivity].
      * rewrite (Hb1 ltac:(discriminate)). unfold Spec.displayName. rewrite EFl.
        reflexivity.
  - rewrite Hprin, Hbp. unfold Spec.principalOf. rewrite EI, map_app, Qsum_app.
    destruct (Spec.isIncome t); cbn [map];
      rewrite ?Qsum_cons, ?Qsum_nil; ring.
  - rewrite Hint, Hbi. unfold Spec.interestOf.
    rewrite EI, flat_map_app, map_app, Qsum_app.
    destruct (Spec.isIncome t); cbn [flat_map map];
      rewrite ?app_nil_r, ?Qsum_nil; reflexivity.
  - rewrite Hpaid, Hbd. unfold Spec.paidOf. rewrite EE, map_app, Qsum_app.
    destruct (Spec.isIncome t); cbn [map];
      rewrite ?Qsum_cons, ?Qsum_nil; ring.
Qed.

(** The ledger agrees with the specification, key by key. *)
Lemma accountsOf_accountFor txs key :
  Spec.accountFor tz now key txs (accountsOf tz now txs !! key).
Proof.
  induction txs as [|t txs IH] using rev_ind.
  - unfold accountsOf. cbn [fold_left]. rewrite lookup_empty. reflexivity.
  - unfold accountsOf in *. rewrite fold_left_app. cbn [fold_left].
    set (m := fold_left (fileTransaction tz now) txs ∅) in *.
    pose proof (ledgerKey_ledgerName t) as Hk.
    destruct (nonEmpty (ledgerName t)) eqn:Hn.
    + destruct (fileTransaction_own m t Hn) as (acc2 & -> & Hname & Hp & Hi & Hd).
      cbv zeta in *.
      destruct (decide (toLowerCase (ledgerName t) = key)) as [<-|Hne].
      * rewrite lookup_insert_eq.
        eapply accountFor_add; eauto.
      * rewrite lookup_insert_ne by exact Hne.
        apply accountFor_skip; [|exact IH].
        unfold Spec.filedUnder. rewrite Hk.
        apply String.eqb_neq. exact Hne.
    + assert (E : fileTransaction tz now m t = m)
        by (unfold fileTransaction; rewrite Hn; reflexivity).
      rewrite E. apply accountFor_skip; [|exact IH].
      unfold Spec.filedUnder. rewrite Hk. reflexivity.
Qed.


(** The displayed name is spelled as on an income entry of the key when
    there is one, and its lower-case form is the key. *)
Lemma displayName_casing key txs :
  List.filter (Spec.filedUnder key) txs <> [] ->
  toLowerCase (Spec.displayName key txs) = key /\
  ((exists t, In t txs /\ Spec.filedUnder key t = true /\ Spec.isIncome t = true) ->
   exists t inv, In t txs /\ Spec.filedUnder key t = true /\ Spec.isIncome t = true /\
                 investorDetails t = Some inv /\
                 Spec.displayName key txs = investorName inv).
Proof.
  intros Hne. unfold Spec.displayName.
  assert (Hkey : forall t, Spec.filedUnder key t = true ->
            (Spec.isIncome t = true ->
             exists inv, investorDetails t = Some inv /\
                         toLowerCase (investorName inv) = key) /\
            (Spec.isIncome t = false -> toLowerCase (category t) = key)).
  { intros t Hf. unfold Spec.filedUnder, Spec.ledgerKey, Spec.isIncome in *.
    destruct (type t); cbn [TransactionType_eqb]; (split; [|]); try discriminate.
    - intros _. destruct (investorDetails t) as [inv|]; [|discriminate Hf].
      destruct (nonEmpty (investorName inv)); [|discriminate Hf].
      exists inv. split; [reflexivity|]. apply String.eqb_eq. exact Hf.
    - intros _. destruct (nonEmpty (category t)); [|discriminate Hf].
      apply String.eqb_eq. exact Hf. }
  destruct (List.find Spec.isIncome (rev (List.filter (Spec.filedUnder key) txs)))
    as [t|] eqn:Efind.
  - apply find_some in Efind. destruct Efind as [Hin Hinc].
    apply in_rev, filter_In in Hin. destruct Hin as [Hin Hf].
    destruct (proj1 (Hkey t Hf) Hinc) as (inv & Einv & Elow).
    rewrite Einv. split; [exact Elow|].
    intros _. exists t, inv. repeat split; assumption.
  - destruct (List.filter (Spec.filedUnder key) txs) as [|x F] eqn:EF;
      [contradiction|].
    assert (Hx : In x (List.filter (Spec.filedUnder key) txs))
      by (rewrite EF; left; reflexivity).
    apply filter_In in Hx. destruct Hx as [Hxin Hxf].
    assert (Hxe : Spec.isIncome x = false).
    { apply (find_none _ _ Efind). apply -> in_rev. rewrite <- EF.
      apply filter_In. split; assumption. }
    split; [exact (proj2 (Hkey x Hxf) Hxe)|].
    intros (t & Hin & Hf & Hinc). exfalso.
    assert (Ht : In t (rev (List.filter (Spec.filedUnder key) txs)))
      by (apply -> in_rev; apply filter_In; split; assumption).
    rewrite EF in Ht.
    pose proof (find_none _ _ Efind t Ht) as Hno. congruence.
Qed.

End LedgerAggregation.



Example small_ledger_accounts :
  map (fun k =>
         option_map (fun a => (name a, Qred (totalPrincipal a),
                               Qred (totalInterestAccrued a), Qred (totalPaid a),
                               Qred (netBalance a)))
                    (accountsOf 330 (Date_ymd 330 2024 5 15) Samples.small_ledger !! k))
      ["asha rao"; "groceries"; "Asha Rao"]%string
  = [Some ("Asha Rao"%string, 120000%Q, 4800%Q, 5000%Q, 119800%Q);
     Some ("Groceries"%string, 0%Q, 0%Q, 800%Q, (-800)%Q);
     None].
Proof. vm_compute. reflexivity. Qed.

(** * Investor categories *)

Lemma findGroup_lookup n cats i g :
  findGroup n cats = Some (i, g) -> cats !! i = Some g /\ group g = n.
Proof.
  unfold findGroup. intros H. apply list_find_Some in H.
  destruct H as (Hl & Hg & _). split; assumption.
Qed.

(** [moveItem] never clears the flag, and leaves everything alone when the
    flag stays false. *)
Lemma moveItem_true p v item st :
  snd st = true -> snd (moveItem p v item st) = true.
Proof.
  intros H. unfold moveItem.
  destruct (fst st !! p) as [pg|]; [|exact H].
  destruct (fst st !! v) as [vg|]; [|exact H].
  destruct (indexOf item (items pg)); [reflexivity|exact H].
Qed.

Lemma moveItem_false p v item st :
  snd (moveItem p v item st) = false ->
  moveItem p v item st = st /\
  (forall pg vg, fst st !! p = Some pg -> fst st !! v = Some vg ->
                 indexOf item (items pg) = None).
Proof.
  unfold moveItem.
  destruct (fst st !! p) as [pg|]; [|intros _; split; [reflexivity|discriminate]].
  destruct (fst st !! v) as [vg|]; [|intros _; split; [reflexivity|discriminate]].
  destruct (indexOf item (items pg)) eqn:E; [discriminate|].
  intros _. split; [reflexivity|]. intros pg' vg' [= <-] _. exact E.
Qed.

Lemma moveItem_none p v item cats pg :
  cats !! p = Some pg -> indexOf item (items pg) = None ->
  moveItem p v item (cats, false) = (cats, false).
Proof.
  intros Hp Hi. unfold moveItem. cbn [fst]. rewrite Hp.
  destruct (cats !! v); [rewrite Hi|]; reflexivity.
Qed.

(** What it means for [migrate] to find nothing to do. *)
Lemma migrate_false stored :
  snd (migrate stored) = false ->
  migrate stored = (stored, false) /\
  is_Some (findGroup "Investments" stored) /\
  (forall p pg, findGroup "Personal" stored = Some (p, pg) ->
     (hasInvestorGroup stored -> indexOf "Investor Funds" (items pg) = None) /\
     indexOf "SIP (Regular)" (items pg) = None /\
     indexOf "SIP (Gold)" (items pg) = None).
Proof.
  unfold migrate, hasInvestorGroup.
  set (st1 := match findGroup "Personal" stored with
              | Some (p, _) =>
                  match findGroup "Investor Payments" stored with
                  | Some (i, _) => moveItem p i "Investor Funds" (stored, false)
                  | None => (stored, false)
                  end
              | None => (stored, false)
              end).
  assert (H1 : snd st1 = false ->
               st1 = (stored, false) /\
               (forall p pg, findGroup "Personal" stored = Some (p, pg) ->
                  is_Some (findGroup "Investor Payments" stored) ->
                  indexOf "Investor Funds" (items pg) = None)).
  { subst st1.
    destruct (findGroup "Personal" stored) as [[p pg]|] eqn:Ep;
      [|intros _; split; [reflexivity|discriminate]].
    destruct (findGroup "Investor Payments" stored) as [[i g]|] eqn:Ei;
      [|intros _; split; [reflexivity|intros ? ? _ [? [=]]]].
    intros Hf. apply moveItem_false in Hf. destruct Hf as [-> Hno].
    split; [reflexivity|]. intros p' pg' [= <- <-] _.
    apply findGroup_lookup in Ep, Ei.
    apply (Hno pg g); [apply Ep|apply Ei]. }
  destruct (snd st1) eqn:Eflag.
  { (* the flag is set after the first migration: it stays set *)
    intros Hfin. exfalso.
    destruct (findGroup "Investments" (fst st1)) as [[v vg]|].
    - destruct (fst <$> findGroup "Personal" stored) as [p|].
      + rewrite !moveItem_true in Hfin by (try apply moveItem_true; exact Eflag).
        discriminate Hfin.
      + congruence.
    - destruct (findGroup "Personal" (fst st1)) as [[pIndex ?]|].
      + destruct (S <$> (fst <$> findGroup "Personal" stored)) as [p|].
        * rewrite !moveItem_true in Hfin
            by (try apply moveItem_true; reflexivity).
          discriminate Hfin.
        * discriminate Hfin.
      + destruct (fst <$> findGroup "Personal" stored) as [p|].
        * rewrite !moveItem_true in Hfin
            by (try apply moveItem_true; reflexivity).
          discriminate Hfin.
        * discriminate Hfin. }
  destruct (H1 eq_refl) as [E1 Hif]. clear H1. rewrite E1. cbn [fst].
  destruct (findGroup "Investments" stored) as [[v vg]|] eqn:Ev.
  - destruct (findGroup "Personal" stored) as [[p pg]|] eqn:Ep; cbn [fmap option_fmap option_map fst].
    + intros Hfin.
      assert (H2 : snd (moveItem p v "SIP (Regular)" (stored, false)) = false).
      { destruct (snd (moveItem p v "SIP (Regular)" (stored, false))) eqn:E;
          [|reflexivity].
        rewrite moveItem_true in Hfin by exact E. discriminate Hfin. }
      apply moveItem_false in H2. destruct H2 as [E2 Hno2]. rewrite E2 in Hfin |- *.
      apply moveItem_false in Hfin. destruct Hfin as [E3 Hno3]. rewrite E3.
      split; [reflexivity|]. split; [eexists; reflexivity|].
      intros p' pg' [= <- <-].
      apply findGroup_lookup in Ep, Ev. cbn [fst] in *.
      split; [intros Hg; apply (Hif p pg eq_refl Hg)|].
      split; [apply (Hno2 pg vg); [apply Ep|apply Ev]
             |apply (Hno3 pg vg); [apply Ep|apply Ev]].
    + intros _. split; [reflexivity|]. split; [eexists; reflexivity|].
      intros ? ? [=].
  - intros Hfin. exfalso.
    destruct (findGroup "Personal" stored) as [[p pg]|]; cbn [fmap option_fmap option_map fst] in Hfin.
    + rewrite !moveItem_true in Hfin by (try apply moveItem_true; reflexivity).
      discriminate Hfin.
    + discriminate Hfin.
Qed.

Lemma migrate_stable stored :
  is_Some (findGroup "Investments" stored) ->
  (forall p pg, findGroup "Personal" stored = Some (p, pg) ->
     (hasInvestorGroup stored -> indexOf "Investor Funds" (items pg) = None) /\
     indexOf "SIP (Regular)" (items pg) = None /\
     indexOf "SIP (Gold)" (items pg) = None) ->
  migrate stored = (stored, false).
Proof.
  intros [[v vg] Ev] Hp. unfold migrate, hasInvestorGroup in *.
  destruct (findGroup "Personal" stored) as [[p pg]|] eqn:Ep.
  - destruct (Hp p pg eq_refl) as (Hif & Hr & Hg).
    pose proof (findGroup_lookup _ _ _ _ Ep) as [Hlp _].
    assert (E1 : match findGroup "Investor Payments" stored with
                 | Some (i, _) => moveItem p i "Investor Funds" (stored, false)
                 | None => (stored, false)
                 end = (stored, false)).
    { destruct (findGroup "Investor Payments" stored) as [[i g]|] eqn:Ei;
        [|reflexivity].
      apply (moveItem_none _ _ _ _ pg Hlp). apply Hif. eexists; reflexivity. }
    rewrite E1. cbn [fst]. rewrite Ev. cbn [fmap option_fmap option_map fst].
    rewrite (moveItem_none _ _ _ _ pg Hlp Hr).
    apply (moveItem_none _ _ _ _ pg Hlp Hg).
  - cbn [fst]. rewrite Ev. reflexivity.
Qed.

(** Replacing a group by one of the same name does not move any group. *)
Lemma findGroup_insert n cats i g g' :
  cats !! i = Some g -> group g' = group g ->
  findGroup n (<[i := g']> cats)
  = (fun jx => (fst jx, if decide (fst jx = i) then g' else snd jx))
      <$> findGroup n cats.
Proof.
  unfold findGroup. revert i.
  induction cats as [|x cats IH]; intros i Hl Hg; [discriminate Hl|].
  destruct i as [|i]; cbn [lookup list_lookup] in Hl.
  - injection Hl as ->. cbn [insert list_insert list_find].
    rewrite Hg. destruct (decide (group g = n)); cbn; [reflexivity|].
    destruct (list_find (fun c => group c = n) cats) as [[j y]|]; reflexivity.
  - cbn [insert list_insert list_find].
    destruct (decide (group x = n)); cbn; [reflexivity|].
    change (prod_map S id <$> list_find (fun c => group c = n) (<[i:=g']> cats)
            = (fun jx => (fst jx, if decide (fst jx = S i) then g' else snd jx))
                <$> (prod_map S id <$> list_find (fun c => group c = n) cats)).
    rewrite (IH i Hl Hg).
    destruct (list_find (fun c => group c = n) cats) as [[j y]|]; cbn;
      [|reflexivity].
    destruct (decide (j = i)); destruct (decide (S j = S i)); try reflexivity; lia.
Qed.

(** Adding an item to the investor group does not call for a migration. *)
Lemma migrate_append stored i g x :
  snd (migrate stored) = false ->
  findGroup "Investor Payments" stored = Some (i, g) ->
  snd (migrate (<[i := mkGroup (group g) (items g ++ [x])]> stored)) = false.
Proof.
  intros Hm Hi. apply migrate_false in Hm. destruct Hm as (_ & Hv & Hp).
  pose proof (findGroup_lookup _ _ _ _ Hi) as [Hli Hgi].
  set (g' := mkGroup (group g) (items g ++ [x])).
  assert (Hfg : forall n, findGroup n (<[i := g']> stored)
                = (fun jx => (fst jx, if decide (fst jx = i) then g' else snd jx))
                    <$> findGroup n stored)
    by (intros n; apply (findGroup_insert n stored i g g' Hli); reflexivity).
  rewrite (migrate_stable (<[i := g']> stored)); [reflexivity| |].
  - rewrite Hfg. destruct Hv as [[v vg] ->]. eexists; reflexivity.
  - intros p pg'. rewrite Hfg.
    destruct (findGroup "Personal" stored) as [[p0 pg]|] eqn:Ep; [|discriminate].
    cbn [fmap option_fmap option_map fst snd]. intros [= <- <-].
    pose proof (findGroup_lookup _ _ _ _ Ep) as [Hlp Hgp].
    destruct (decide (p0 = i)) as [->|Hne].
    + rewrite Hli in Hlp. injection Hlp as <-. rewrite Hgi in Hgp. discriminate Hgp.
    + destruct (Hp p0 pg eq_refl) as (Hif & Hr & Hg).
      split; [|split; assumption].
      intros _. apply Hif. unfold hasInvestorGroup. rewrite Hi. eexists; reflexivity.
Qed.

Lemma existsb_sameName_self investor l :
  existsb (fun item => sameName item investor) (l ++ [investor]) = true.
Proof.
  rewrite existsb_app. cbn [existsb]. unfold sameName.
  rewrite String.eqb_refl. apply orb_true_iff. right. reflexivity.
Qed.

(** The categories [getCategories] returns are the ones stored when it is
    done. *)
Lemma getCategories_stored w :
  wt_categories (localStorage (snd (getCategories w)))
  = Some (deref (snd (getCategories w)) (fst (getCategories w))).
Proof.
  unfold getCategories.
  destruct (wt_categories (localStorage w)) as [stored|] eqn:E; [|reflexivity].
  destruct (migrate stored) as [cats changed] eqn:Em.
  destruct changed; cbn [fst snd deref]; [reflexivity|].
  rewrite E. f_equal.
  pose proof (migrate_false stored) as H. rewrite Em in H.
  destruct (H eq_refl) as ([= ->] & _). reflexivity.
Qed.

Lemma getCategories_needsNoMigration w :
  needsNoMigration w ->
  exists stored, wt_categories (localStorage w) = Some stored /\
                 snd (migrate stored) = false /\
                 getCategories w = (Parsed stored, w).
Proof.
  intros (stored & Hs & Hm). exists stored. split; [exact Hs|]. split; [exact Hm|].
  unfold getCategories. rewrite Hs.
  destruct (migrate_false stored Hm) as (-> & _). reflexivity.
Qed.

(** The group after the call: the items [getCategories] returned, followed
    by the investor's name unless an item equals it up to case. *)
Lemma ensureInvestorCategory_stored investor w :
  let cats0 := deref (snd (getCategories w)) (fst (getCategories w)) in
  let old := investorItems cats0 in
  exists cats,
    wt_categories (localStorage (ensureInvestorCategory investor w)) = Some cats /\
    hasInvestorGroup cats /\
    investorItems cats
    = (if existsb (fun item => sameName item investor) old
       then old else old ++ [investor]) /\
    (existsb (fun item => sameName item investor) old = true ->
     ensureInvestorCategory investor w = snd (getCategories w)) /\
    (forall i g, findGroup "Investor Payments" cats0 = Some (i, g) ->
       existsb (fun item => sameName item investor) old = false ->
       cats = <[i := mkGroup (group g) (items g ++ [investor])]> cats0).
Proof.
  cbv zeta.
  pose proof (getCategories_stored w) as Hst.
  unfold ensureInvestorCategory, investorItems, hasInvestorGroup.
  destruct (getCategories w) as [r0 w0]. cbn [fst snd] in *.
  set (cats0 := deref w0 r0) in *.
  destruct (findGroup "Investor Payments" cats0) as [[i g]|] eqn:Ei.
  - pose proof (findGroup_lookup _ _ _ _ Ei) as [Hli Hgi].
    change (deref w0 r0) with cats0. rewrite Hli.
    destruct (existsb (fun item => sameName item investor) (items g)) eqn:Eex.
    + exists cats0. rewrite Ei.
      split; [exact Hst|]. split; [eexists; reflexivity|].
      split; [reflexivity|]. split; [reflexivity|]. discriminate.
    + set (g' := mkGroup (group g) (items g ++ [investor])).
      exists (<[i := g']> cats0).
      assert (Hfg : findGroup "Investor Payments" (<[i := g']> cats0) = Some (i, g')).
      { rewrite (findGroup_insert _ cats0 i g g' Hli eq_refl), Ei.
        cbn [fmap option_fmap option_map fst snd].
        destruct (decide (i = i)); [reflexivity|contradiction]. }
      rewrite Hfg.
      split; [destruct r0; reflexivity|]. split; [eexists; reflexivity|].
      split; [reflexivity|]. split; [discriminate|].
      intros i' g0 [= <- <-] _. reflexivity.
  - change (deref w0 r0) with cats0.
    set (gnew := mkGroup "Investor Payments" []).
    assert (Hd : forall c, deref (snd (mutate r0 c w0)) (fst (mutate r0 c w0)) = c)
      by (intros c; destruct r0; reflexivity).
    destruct (mutate r0 (cats0 ++ [gnew]) w0) as [r1 w1] eqn:Emut.
    pose proof (Hd (cats0 ++ [gnew])) as Hd1. rewrite Emut in Hd1.
    cbn [fst snd] in Hd1. rewrite Hd1.
    rewrite lookup_app_r, Nat.sub_diag by lia. cbn [lookup list_lookup existsb gnew].
    exists (cats0 ++ [mkGroup "Investor Payments" [investor]]).
    assert (Hins : <[length cats0 := mkGroup (group gnew) (items gnew ++ [investor])]>
                     (cats0 ++ [gnew])
                   = cats0 ++ [mkGroup "Investor Payments" [investor]]).
    { rewrite insert_app_r_alt, Nat.sub_diag by lia. reflexivity. }
    rewrite Hins.
    assert (Hfg : findGroup "Investor Payments"
                    (cats0 ++ [mkGroup "Investor Payments" [investor]])
                  = Some (length cats0, mkGroup "Investor Payments" [investor])).
    { unfold findGroup in *. rewrite list_find_app_r by exact Ei.
      cbn. destruct (decide ("Investor Payments"%string = "Investor Payments"%string));
        [|contradiction].
      cbn. reflexivity. }
    rewrite Hfg.
    split; [destruct r1; reflexivity|]. split; [eexists; reflexivity|].
    split; [reflexivity|]. split; [discriminate|]. discriminate.
Qed.

Lemma caseDistinct_append investor old :
  existsb (fun item => sameName item investor) old = false ->
  caseDistinct old -> caseDistinct (old ++ [investor]).
Proof.
  unfold caseDistinct. intros Hex Hnd. rewrite map_app. cbn [map].
  apply NoDup_app. split; [exact Hnd|]. split; [|apply NoDup_singleton].
  intros x Hx Hin. apply list_elem_of_singleton in Hin. subst x.
  apply list_elem_of_In, in_map_iff in Hx. destruct Hx as (y & Hy & Hin).
  assert (Hy' : sameName y investor = false).
  { destruct (sameName y investor) eqn:E; [|reflexivity].
    rewrite <- Hex. symmetry. apply existsb_exists. exists y. auto. }
  unfold sameName in Hy'. apply String.eqb_neq in Hy'. contradiction.
Qed.




(** On a page with nothing stored the first call stores the defaults with
    the name added, and a second call changes nothing. *)
Example ensureInvestorCategory_on_empty_storage :
  investorItems
    (default [] (wt_categories (localStorage
                   (ensureInvestorCategory "Bob" Samples.empty_world))))
  = ["Investor Funds"; "Interest Payment"; "Principal Return"; "Bob"]%string /\
  ensureInvestorCategory "bob" (ensureInvestorCategory "Bob" Samples.empty_world)
  = ensureInvestorCategory "Bob" Samples.empty_world.
Proof. split; vm_compute; reflexivity. Qed.

(** * The dashboard's upcoming payments *)

Section DashboardFacts.

Variable tz : Z.
Variable now : Z.

Lemma getDate_start (s : IsoDate) :
  validIso s -> 100 <= isoY s ->
  getDate tz (Date_ymd tz (isoY s) (isoM s - 1) (isoD s)) = isoD s.
Proof.
  intros [Hm Hd] Hy. rewrite Date_ymd_midnight, (fullYear_id _ Hy).
  unfold getDate, DateFromTime. rewrite Day_midnight.
  assert (E : (isoM s - 1) / 12 = 0 /\ (isoM s - 1) mod 12 = isoM s - 1)
    by (Z.div_mod_to_equations; lia).
  destruct E as [E1 E2].
  destruct (civil_MakeDay (isoY s) (isoM s - 1) (isoD s)) as (_ & _ & ->);
    [rewrite E1, E2, Z.add_0_r; exact Hd|reflexivity].
Qed.

Lemma periodDate_0 (s : IsoDate) months :
  validIso s -> 100 <= isoY s ->
  periodDate tz (isoY s) (isoM s) (isoD s) months 0
  = Date_ymd tz (isoY s) (isoM s - 1) (isoD s).
Proof.
  intros Hv Hy. unfold periodDate.
  replace (isoM s - 1 + months * 0) with (isoM s - 1) by lia.
  rewrite (getDate_start s Hv Hy), Z.eqb_refl. reflexivity.
Qed.

(** With the fuel [forwardFuel] gives it, the fast-forward loop stops
    because its condition fails: its result is not before today. *)
Lemma fastForward_enough fuel (s : IsoDate) months m nextDate :
  1 <= isoD s <= 31 -> 1 <= months -> 1 <= m ->
  (Day (LocalTime tz (Dashboard.today tz now))
   - Day (LocalTime tz (Date_ymd tz (isoY s) (isoM s - 1) 1))) / 28
  < m - 1 + Z.of_nat fuel ->
  nextDate = periodDate tz (isoY s) (isoM s) (isoD s) months (m - 1) ->
  Dashboard.today tz now
  <= Dashboard.fastForward tz now fuel (isoY s) (isoM s) (isoD s) (isoD s) months
       nextDate m.
Proof.
  intros HsD Hk. revert m nextDate.
  induction fuel as [|fuel IH]; intros m nextDate Hm Hbound Hnext;
    cbn [Dashboard.fastForward].
  - pose proof (periodDate_day_lower tz (isoY s) (isoM s) (isoD s) months (m - 1)
                  HsD Hk ltac:(lia)) as Hlow.
    rewrite <- Hnext in Hlow.
    apply Z.lt_le_incl, (Day_lt_inv tz).
    change (Z.of_nat 0) with 0 in Hbound.
    revert Hbound Hlow.
    generalize (Day (LocalTime tz (Dashboard.today tz now))).
    generalize (Day (LocalTime tz nextDate)).
    generalize (Day (LocalTime tz (Date_ymd tz (isoY s) (isoM s - 1) 1))).
    intros a b c Hbound Hlow. Z.div_mod_to_equations. lia.
  - destruct (Z.ltb_spec nextDate (Dashboard.today tz now)); [|assumption].
    apply IH; [lia|lia|].
    replace (m + 1 - 1) with m by lia. unfold periodDate. reflexivity.
Qed.

Lemma fastForward_reaches_today t months :
  validIso (date t) -> 100 <= isoY (date t) -> 1 <= months ->
  let startDate := Date_ymd tz (isoY (date t)) (isoM (date t) - 1) (isoD (date t)) in
  Dashboard.today tz now
  <= Dashboard.fastForward tz now (Dashboard.forwardFuel tz now t)
       (isoY (date t)) (isoM (date t)) (isoD (date t)) (getDate tz startDate)
       months startDate 1.
Proof.
  intros Hv Hy Hk startDate. subst startDate.
  rewrite (getDate_start _ Hv Hy).
  pose proof (periodDate_0 (date t) months Hv Hy) as H0.
  destruct Hv as [Hm Hd].
  pose proof (DaysInMonth_bounds (isoY (date t)) (isoM (date t) - 1) ltac:(lia)).
  apply fastForward_enough; try lia.
  - unfold Dashboard.forwardFuel.
    set (q := (Day (LocalTime tz (Dashboard.today tz now))
               - Day (LocalTime tz (Date_ymd tz (isoY (date t))
                                              (isoM (date t) - 1) 1))) / 28).
    destruct (Z_lt_le_dec q 0); [rewrite !Nat2Z.inj_succ; lia|].
    rewrite !Nat2Z.inj_succ, Z2Nat.id by lia. lia.
  - replace (1 - 1) with 0 by lia. symmetry. exact H0.
Qed.

(** The dashboard compares the interest date it shows with the maturity
    date. *)
Lemma paymentsOf_interest_not_after_maturity t p :
  In p (Dashboard.paymentsOf tz now t) ->
  Dashboard.pay_type p = Dashboard.INTEREST ->
  exists inv mat,
    investorDetails t = Some inv /\ maturityDate inv = Some mat /\
    Dashboard.pay_date p
    <= setHours tz (Date_ymd tz (isoY mat) (isoM mat - 1) (isoD mat)) 0 0 0 0.
Proof.
  unfold Dashboard.paymentsOf.
  destruct (investorDetails t) as [inv|] eqn:Einv; [|intros []].
  destruct (type t); [|intros []].
  destruct (maturityDate inv) as [mat|] eqn:Emat; [|intros []].
  intros Hin Hty. exists inv, mat. split; [reflexivity|]. split; [exact Emat|].
  apply in_app_or in Hin. destruct Hin as [Hin|Hin].
  - destruct (_ && _); [|destruct Hin].
    destruct Hin as [<-|[]]. discriminate Hty.
  - destruct (periodicInterestAmount inv) as [pia|]; [|destruct Hin].
    destruct (truthy pia && _); [|destruct Hin].
    destruct (0 <? _); [|destruct Hin].
    match type of Hin with
    | In _ (if (?a <=? ?b) && (?c <=? ?d) then _ else _) =>
        destruct (Z.leb_spec a b); [|destruct Hin];
        destruct (Z.leb_spec c d); [|destruct Hin]
    end.
    destruct Hin as [<-|[]]. cbn [Dashboard.pay_date]. assumption.
Qed.

End DashboardFacts.

(** * Time zones: where the UTC reading of a date string shows *)

(** The date string of a ledger entry is the UTC date of local midnight:
    in UTC+5:30 it names the day before the projected date. *)
Example ledger_entry_date_string_is_utc_date :
  map (fun e => (date (vtx e), localIso 330 (timestamp (vtx e))))
      (generateInterestEntries 330 (Date_ymd 330 2024 3 15)
         (mkTransaction "t6" "u1" 120000 INCOME "Investor Funds" None
            (mkIso 2024 1 31) None 0
            (Some (mkInvestorDetails "Asha" 12 Monthly 12 (Some (mkIso 2025 1 31))
                     None (Some 1200%Q)))
            None))
  = [(mkIso 2024 2 28, mkIso 2024 2 29); (mkIso 2024 3 30, mkIso 2024 3 31)].
Proof. vm_compute. reflexivity. Qed.

(** West of UTC the calendar's maturity cut-off is the day before the
    maturity date: in UTC-5, on 1 July 2024, the principal of a six-month
    plan that matures on 15 July 2024 is shown for 14 July, and the sixth
    monthly interest date, 15 July, is not emitted. *)
Example calendar_omits_final_occurrence_west_of_utc :
  let now := Date_ymd (-300) 2024 6 1 in
  localIso (-300) (periodDate (-300) 2024 1 15 1 6) = mkIso 2024 7 15 /\
  map (fun e => (ev_type e, localIso (-300) (ev_date e)))
      (allEvents (-300) now F30 [monthly_six_months])
  = [(PRINCIPAL, mkIso 2024 7 14)].
Proof. cbv zeta. split; vm_compute; reflexivity. Qed.

(** The calendar projects interest only for a plan whose periodic amount
    is stored. *)
Example calendar_needs_stored_amount :
  let now := Date_ymd 330 2024 5 1 in
  UpcomingMaturities.today 330 now <= periodDate 330 2024 1 15 1 5
  <= endDate 330 now F90 /\
  allEvents 330 now F90 [monthly_without_stored_amount] = [] /\
  map (fun e => Qred (amount (vtx e)))
      (generateInterestEntries 330 now monthly_without_stored_amount)
  = [1000%Q; 1000%Q; 1000%Q; 1000%Q].
Proof.
  cbv zeta. split; [split; vm_compute; discriminate|].
  split; vm_compute; reflexivity.
Qed.

(** West of UTC the interest of a plan paid at maturity is emitted on the
    eve of the maturity date: in UTC-5, on 31 December 2023, for a plan
    that matures on 1 January 2024. *)
Example maturity_event_emitted_a_day_early_west_of_utc :
  let now := Date_ymd (-300) 2023 11 31 in
  localIso (-300) now = mkIso 2023 12 31 /\
  map (fun e => date (vtx e)) (generateInterestEntries (-300) now maturity_plan)
  = [mkIso 2024 1 1].
Proof. cbv zeta. split; vm_compute; reflexivity. Qed.

(** * Storage: transactions *)

(** Newest first: a later element is not newer than an earlier one. *)
Local Abbreviation newestFirst :=
  (StronglySorted (fun a b : Transaction => timestamp b <= timestamp a)).

Lemma insertNewest_Permutation x l : Permutation (insertNewest x l) (x :: l).
Proof.
  induction l as [|y l IH]; cbn [insertNewest]; [reflexivity|].
  destruct (timestamp x <=? timestamp y); [|reflexivity].
  rewrite IH. apply perm_swap.
Qed.

Lemma sortNewest_snoc l x : sortNewest (l ++ [x]) = insertNewest x (sortNewest l).
Proof. unfold sortNewest. rewrite fold_left_app. reflexivity. Qed.

Lemma sortNewest_Permutation l : Permutation (sortNewest l) l.
Proof.
  induction l as [|x l IH] using rev_ind; [reflexivity|].
  rewrite sortNewest_snoc, insertNewest_Permutation, IH.
  apply Permutation_cons_append.
Qed.

Lemma insertNewest_sorted x l : newestFirst l -> newestFirst (insertNewest x l).
Proof.
  induction l as [|y l IH]; intros Hs; cbn [insertNewest].
  - repeat constructor.
  - apply StronglySorted_inv in Hs. destruct Hs as [Hs Hy].
    destruct (Z.leb_spec (timestamp x) (timestamp y)).
    + constructor; [apply IH, Hs|].
      apply Forall_forall. intros z Hz.
      apply list_elem_of_In in Hz.
      apply (Permutation_in _ (insertNewest_Permutation x l)) in Hz.
      destruct Hz as [<-|Hz]; [assumption|].
      rewrite Forall_forall in Hy. apply Hy, list_elem_of_In, Hz.
    + constructor; [constructor; assumption|].
      apply Forall_forall. intros z Hz. apply list_elem_of_In in Hz.
      destruct Hz as [<-|Hz]; [lia|].
      rewrite Forall_forall in Hy. specialize (Hy z (proj2 (list_elem_of_In _ _) Hz)).
      cbn in Hy. lia.
Qed.

Lemma sortNewest_sorted l : newestFirst (sortNewest l).
Proof.
  induction l as [|x l IH] using rev_ind; [constructor|].
  rewrite sortNewest_snoc. apply insertNewest_sorted, IH.
Qed.

(** An element newer than all the others goes first. *)
Lemma insertNewest_newest x l :
  (forall y, In y l -> timestamp y < timestamp x) -> insertNewest x l = x :: l.
Proof.
  destruct l as [|y l]; [reflexivity|]. intros H. cbn [insertNewest].
  specialize (H y (or_introl eq_refl)).
  destruct (Z.leb_spec (timestamp x) (timestamp y)); [lia|reflexivity].
Qed.

(** The sort is stable, so it commutes with filtering. *)
Lemma filter_insertNewest (p : Transaction -> bool) x l :
  newestFirst l ->
  List.filter p (insertNewest x l)
  = if p x then insertNewest x (List.filter p l) else List.filter p l.
Proof.
  induction l as [|y l IH]; intros Hs; cbn [insertNewest List.filter].
  - destruct (p x); reflexivity.
  - apply StronglySorted_inv in Hs. destruct Hs as [Hs Hy].
    destruct (Z.leb_spec (timestamp x) (timestamp y)) as [Hle|Hgt];
      cbn [List.filter].
    + rewrite (IH Hs). destruct (p y), (p x); cbn [insertNewest]; try reflexivity.
      destruct (Z.leb_spec (timestamp x) (timestamp y)); [reflexivity|lia].
    + destruct (p x); [|reflexivity].
      symmetry. apply (insertNewest_newest x (List.filter p (y :: l))).
      intros z Hz. apply filter_In in Hz. destruct Hz as [[<-|Hz] _]; [lia|].
      rewrite Forall_forall in Hy.
      specialize (Hy z (proj2 (list_elem_of_In _ _) Hz)). cbn in Hy. lia.
Qed.

Lemma filter_sortNewest (p : Transaction -> bool) l :
  List.filter p (sortNewest l) = sortNewest (List.filter p l).
Proof.
  induction l as [|x l IH] using rev_ind; [reflexivity|].
  rewrite sortNewest_snoc, (filter_insertNewest p x _ (sortNewest_sorted l)), IH.
  rewrite List.filter_app. cbn [List.filter].
  destruct (p x); [rewrite sortNewest_snoc|rewrite app_nil_r]; reflexivity.
Qed.

Lemma filter_filter_comm {A} (p q : A -> bool) (l : list A) :
  List.filter p (List.filter q l) = List.filter q (List.filter p l).
Proof.
  induction l as [|x l IH]; [reflexivity|]. cbn [List.filter].
  destruct (p x) eqn:Hp, (q x) eqn:Hq; cbn [List.filter];
    rewrite ?Hp, ?Hq, IH; reflexivity.
Qed.

(** X1. [getTransactions] returns exactly the stored transactions of the
    user, each as often as it is stored, newest first. *)
Theorem getTransactions_sorted_user_transactions (uid : string) (w : World) :
  Permutation (getTransactions uid w)
              (List.filter (fun t => String.eqb (userId t) uid) (parsedTransactions w)) /\
  StronglySorted (fun a b => timestamp b <= timestamp a) (getTransactions uid w) /\
  (forall t, In t (getTransactions uid w) -> userId t = uid).
Proof.
  unfold getTransactions. fold (parsedTransactions w).
  split; [apply sortNewest_Permutation|]. split; [apply sortNewest_sorted|].
  intros t Ht. apply (Permutation_in _ (sortNewest_Permutation _)) in Ht.
  apply filter_In in Ht. destruct Ht as [_ Ht]. apply String.eqb_eq, Ht.
Qed.

(** X2. After [addTransaction] the new transaction, with the fresh id and
    the current time stamp, is in the list of its user, put in by time
    stamp; the lists of the other users are unchanged; and when it is newer
    than everything the user has, it comes first. *)
Theorem addTransaction_then_getTransactions
    (uuid : string) (nowMs : Z) (transaction : Transaction) (w : World) :
  let newTx := fst (addTransaction uuid nowMs transaction w) in
  let w' := snd (addTransaction uuid nowMs transaction w) in
  let uid := userId transaction in
  tx_id newTx = uuid /\ timestamp newTx = nowMs /\ userId newTx = uid /\
  getTransactions uid w' = insertNewest newTx (getTransactions uid w) /\
  In newTx (getTransactions uid w') /\
  (forall other, other <> uid -> getTransactions other w' = getTransactions other w) /\
  ((forall old, In old (getTransactions uid w) -> timestamp old < nowMs) ->
   getTransactions uid w' = newTx :: getTransactions uid w).
Proof.
  cbv zeta. unfold addTransaction. cbn [fst snd].
  set (newTx := mkTransaction uuid _ _ _ _ _ _ _ nowMs _ _).
  assert (Hget : getTransactions (userId transaction)
                   (setTransactions (parsedTransactions w ++ [newTx]) w)
                 = insertNewest newTx (getTransactions (userId transaction) w)).
  { unfold getTransactions. fold (parsedTransactions w).
    cbn [setTransactions localStorage wt_transactions].
    rewrite List.filter_app. cbn [List.filter newTx userId].
    rewrite String.eqb_refl. apply sortNewest_snoc. }
  split; [reflexivity|]. split; [reflexivity|]. split; [reflexivity|].
  split; [exact Hget|]. split; [|split].
  - rewrite Hget. apply (Permutation_in _ (Permutation_sym (insertNewest_Permutation _ _))).
    left. reflexivity.
  - intros other Hne. unfold getTransactions. fold (parsedTransactions w).
    cbn [setTransactions localStorage wt_transactions].
    rewrite List.filter_app. cbn [List.filter newTx userId].
    replace (String.eqb (userId transaction) other) with false
      by (symmetry; apply String.eqb_neq; congruence).
    rewrite app_nil_r. reflexivity.
  - intros Hnew. rewrite Hget. apply insertNewest_newest. exact Hnew.
Qed.

(** X3. [deleteTransaction] removes from every user's list exactly the
    transactions with the given id and keeps the others in their order;
    when nothing is stored under the key it stores nothing. *)
Theorem deleteTransaction_removes_exactly_the_id (id : string) (w : World) :
  (forall uid,
     getTransactions uid (deleteTransaction id w)
     = List.filter (fun t => negb (String.eqb (tx_id t) id)) (getTransactions uid w)) /\
  (forall uid t, In t (getTransactions uid (deleteTransaction id w)) -> tx_id t <> id) /\
  (wt_transactions (localStorage w) = None -> deleteTransaction id w = w).
Proof.
  assert (H : forall uid,
     getTransactions uid (deleteTransaction id w)
     = List.filter (fun t => negb (String.eqb (tx_id t) id)) (getTransactions uid w)).
  { intros uid. unfold deleteTransaction, getTransactions.
    destruct (wt_transactions (localStorage w)) as [parsed|] eqn:E.
    - cbn [setTransactions localStorage wt_transactions].
      rewrite filter_sortNewest. f_equal. apply filter_filter_comm.
    - rewrite E. reflexivity. }
  split; [exact H|]. split.
  - intros uid t Ht. rewrite H in Ht. apply filter_In in Ht.
    destruct Ht as [_ Ht]. apply negb_true_iff, String.eqb_neq in Ht. exact Ht.
  - intros E. unfold deleteTransaction. rewrite E. reflexivity.
Qed.

(** * Storage: the category migrations *)

Lemma In_allItems x cats :
  In x (allItems cats) <-> exists i g, cats !! i = Some g /\ In x (items g).
Proof.
  unfold allItems. rewrite in_flat_map. split.
  - intros (g & Hg & Hx). apply list_elem_of_In, list_elem_of_lookup_1 in Hg.
    destruct Hg as [i Hi]. eauto.
  - intros (i & g & Hi & Hx). exists g. split; [|exact Hx].
    apply list_elem_of_In. eapply list_elem_of_lookup_2. exact Hi.
Qed.

Lemma In_delete_or {A} (x : A) k (l : list A) :
  In x l -> In x (delete k l) \/ l !! k = Some x.
Proof.
  revert k. induction l as [|y l IH]; intros k; [intros []|].
  destruct k as [|k]; cbn [delete list_delete lookup list_lookup].
  - intros [->|H]; [right; reflexivity|left; exact H].
  - intros [->|H]; [left; left; reflexivity|].
    destruct (IH k H) as [H'|H']; [left; right; exact H'|right; exact H'].
Qed.

Lemma indexOf_lookup item l k : indexOf item l = Some k -> l !! k = Some item.
Proof.
  unfold indexOf. destruct (list_find _ l) as [[j y]|] eqn:E; [|discriminate].
  cbn. intros [= <-]. apply list_find_Some in E. destruct E as (Hl & -> & _).
  exact Hl.
Qed.

Lemma includes_In item l : includes item l = true <-> In item l.
Proof.
  unfold includes. rewrite existsb_exists. split.
  - intros (x & Hx & E). apply String.eqb_eq in E. subst. exact Hx.
  - intros H. exists item. split; [exact H|apply String.eqb_refl].
Qed.

(** [moveItem] between two different groups keeps the group names and
    drops no item. *)
Lemma moveItem_keeps p v item st :
  p <> v ->
  map group (fst (moveItem p v item st)) = map group (fst st) /\
  (forall x, In x (allItems (fst st)) -> In x (allItems (fst (moveItem p v item st)))).
Proof.
  intros Hpv. unfold moveItem.
  destruct (fst st !! p) as [pg|] eqn:Ep; [|auto].
  destruct (fst st !! v) as [vg|] eqn:Ev; [|auto].
  destruct (indexOf item (items pg)) as [k|] eqn:Ek; [|auto].
  cbn [fst].
  set (cats1 := <[p := mkGroup (group pg) (delete k (items pg))]> (fst st)).
  assert (Hv1 : cats1 !! v = Some vg)
    by (unfold cats1; rewrite list_lookup_insert_ne by exact Hpv; exact Ev).
  assert (Hn1 : map group cats1 = map group (fst st)).
  { unfold cats1. change (map group ?l) with (group <$> l).
    rewrite list_fmap_insert. apply list_insert_id.
    rewrite list_lookup_fmap, Ep. reflexivity. }
  split.
  - destruct (includes item (items vg)); [exact Hn1|].
    rewrite <- Hn1. change (map group ?l) with (group <$> l).
    rewrite list_fmap_insert. apply list_insert_id.
    rewrite list_lookup_fmap, Hv1. reflexivity.
  - intros x Hx. apply In_allItems in Hx. destruct Hx as (i & g & Hi & Hxg).
    apply In_allItems.
    assert (Hp1 : cats1 !! p = Some (mkGroup (group pg) (delete k (items pg)))).
    { unfold cats1. apply list_lookup_insert_eq. eapply lookup_lt_Some. exact Ep. }
    destruct (includes item (items vg)) eqn:Einc.
    + destruct (decide (i = p)) as [->|Hip].
      * rewrite Ep in Hi. injection Hi as <-.
        destruct (In_delete_or x k _ Hxg) as [Hd|Hk].
        -- exists p, (mkGroup (group pg) (delete k (items pg))). split; assumption.
        -- rewrite (indexOf_lookup _ _ _ Ek) in Hk. injection Hk as <-.
           exists v, vg. split; [exact Hv1|]. apply includes_In, Einc.
      * exists i, g. split; [|exact Hxg].
        unfold cats1. rewrite list_lookup_insert_ne by congruence. exact Hi.
    + set (vg' := mkGroup (group vg) (item :: items vg)).
      assert (Hv2 : <[v := vg']> cats1 !! v = Some vg')
        by (apply list_lookup_insert_eq; eapply lookup_lt_Some; exact Hv1).
      destruct (decide (i = p)) as [->|Hip].
      * rewrite Ep in Hi. injection Hi as <-.
        destruct (In_delete_or x k _ Hxg) as [Hd|Hk].
        -- exists p, (mkGroup (group pg) (delete k (items pg))).
           split; [|exact Hd]. rewrite list_lookup_insert_ne by congruence. exact Hp1.
        -- rewrite (indexOf_lookup _ _ _ Ek) in Hk. injection Hk as <-.
           exists v, vg'. split; [exact Hv2|]. left. reflexivity.
      * destruct (decide (i = v)) as [->|Hiv].
        -- rewrite Ev in Hi. injection Hi as <-.
           exists v, vg'. split; [exact Hv2|]. right. exact Hxg.
        -- exists i, g. split; [|exact Hxg].
           rewrite list_lookup_insert_ne by congruence.
           unfold cats1. rewrite list_lookup_insert_ne by congruence. exact Hi.
Qed.

Lemma findGroup_names n cats cats' :
  map group cats' = map group cats ->
  fst <$> findGroup n cats' = fst <$> findGroup n cats.
Proof.
  unfold findGroup. revert cats'.
  induction cats as [|x cats IH]; intros [|y cats'] E; try discriminate E;
    [reflexivity|].
  cbn [map] in E. injection E as Ey E.
  cbn [list_find]. rewrite Ey.
  destruct (decide (group x = n)); [reflexivity|].
  specialize (IH cats' E).
  change (fst <$> (prod_map S id <$> list_find (fun c => group c = n) cats')
          = fst <$> (prod_map S id <$> list_find (fun c => group c = n) cats)).
  destruct (list_find (fun c => group c = n) cats') as [[j z]|];
    destruct (list_find (fun c => group c = n) cats) as [[j' z']|];
    cbn in *; congruence.
Qed.

Lemma In_allItems_app x l1 l2 :
  In x (allItems (l1 ++ l2)) <-> In x (allItems l1) \/ In x (allItems l2).
Proof. unfold allItems. rewrite flat_map_app. apply in_app_iff. Qed.

(** The first migration keeps the group names and every item. *)
Lemma migration1_keeps stored :
  let st1 := match findGroup "Personal" stored with
             | Some (p, _) =>
                 match findGroup "Investor Payments" stored with
                 | Some (i, _) => moveItem p i "Investor Funds" (stored, false)
                 | None => (stored, false)
                 end
             | None => (stored, false)
             end in
  map group (fst st1) = map group stored /\
  (forall x, In x (allItems stored) -> In x (allItems (fst st1))).
Proof.
  cbv zeta.
  destruct (findGroup "Personal" stored) as [[p pg]|] eqn:Ep; [|auto].
  destruct (findGroup "Investor Payments" stored) as [[i g]|] eqn:Ei; [|auto].
  apply (moveItem_keeps p i "Investor Funds" (stored, false)).
  intros ->. apply findGroup_lookup in Ep, Ei.
  destruct Ep as [Ep Hp], Ei as [Ei Hi]. rewrite Ep in Ei. injection Ei as <-.
  rewrite Hp in Hi. discriminate Hi.
Qed.

Lemma findGroup_is_Some n cats : is_Some (findGroup n cats) <-> In n (map group cats).
Proof.
  unfold findGroup. split.
  - intros [[i g] H]. apply list_find_Some in H. destruct H as (Hl & Hg & _).
    apply in_map_iff. exists g. split; [exact Hg|].
    apply list_elem_of_In. eapply list_elem_of_lookup_2. exact Hl.
  - intros H. apply in_map_iff in H. destruct H as (g & Hg & Hin).
    apply list_elem_of_In in Hin.
    destruct (list_find_elem_of (fun c => group c = n) cats g Hin Hg) as [[i y] E].
    exists (i, y). exact E.
Qed.

Lemma allItems_insert_middle x k g cats :
  In x (allItems cats) -> In x (allItems (take k cats ++ g :: drop k cats)).
Proof.
  intros H. rewrite <- (take_drop k cats) in H.
  apply In_allItems_app in H. apply In_allItems_app.
  destruct H as [H|H]; [left; exact H|right].
  unfold allItems in *. cbn [flat_map]. apply in_app_iff. right. exact H.
Qed.

(** X4: reading stored categories loses no item: every item of every stored
    group is still in some group after the two migrations, and the result
    always has an "Investments" group. *)
Theorem migrate_keeps_every_item (stored : list GroupedCategory) :
  (forall x, In x (allItems stored) -> In x (allItems (fst (migrate stored)))) /\
  is_Some (findGroup "Investments" (fst (migrate stored))) /\
  (forall n, In n (map group stored) -> In n (map group (fst (migrate stored)))).
Proof.
  unfold migrate.
  pose proof (migration1_keeps stored) as H1. cbv zeta in H1.
  set (st1 := match findGroup "Personal" stored with
              | Some (p, _) =>
                  match findGroup "Investor Payments" stored with
                  | Some (i, _) => moveItem p i "Investor Funds" (stored, false)
                  | None => (stored, false)
                  end
              | None => (stored, false)
              end) in *.
  destruct H1 as [Hn1 Hi1].
  pose proof (findGroup_names "Personal" stored (fst st1) Hn1) as HP.
  assert (Hmoves : forall st2 p v, p <> v ->
            (forall x, In x (allItems stored) -> In x (allItems (fst st2))) ->
            is_Some (findGroup "Investments" (fst st2)) ->
            (forall n, In n (map group stored) -> In n (map group (fst st2))) ->
            let r := moveItem p v "SIP (Gold)" (moveItem p v "SIP (Regular)" st2) in
            (forall x, In x (allItems stored) -> In x (allItems (fst r))) /\
            is_Some (findGroup "Investments" (fst r)) /\
            (forall n, In n (map group stored) -> In n (map group (fst r)))).
  { intros st2 p v Hpv Hit Hv Hn r.
    destruct (moveItem_keeps p v "SIP (Regular)" st2 Hpv) as [Ha Hb].
    destruct (moveItem_keeps p v "SIP (Gold)" (moveItem p v "SIP (Regular)" st2) Hpv)
      as [Hc Hd].
    assert (Hnames : map group (fst r) = map group (fst st2))
      by (unfold r; rewrite Hc; exact Ha).
    split; [|split].
    - intros x Hx. apply Hd, Hb, Hit, Hx.
    - apply findGroup_is_Some. rewrite Hnames. apply findGroup_is_Some, Hv.
    - intros n Hin. rewrite Hnames. apply Hn, Hin. }
  destruct (findGroup "Investments" (fst st1)) as [[v vg]|] eqn:Ev.
  - assert (Hv : is_Some (findGroup "Investments" (fst st1)))
      by (rewrite Ev; eexists; reflexivity).
    assert (Hn : forall n, In n (map group stored) -> In n (map group (fst st1)))
      by (intros n Hin; rewrite Hn1; exact Hin).
    destruct (findGroup "Personal" stored) as [[p pg]|] eqn:Ep; cbn [fmap option_fmap option_map fst].
    + apply Hmoves; try assumption.
      intros ->. destruct (findGroup "Personal" (fst st1)) as [[p' pg']|] eqn:Ep';
        [|discriminate HP].
      cbn in HP. injection HP as ->.
      apply findGroup_lookup in Ep', Ev.
      destruct Ep' as [E1 G1], Ev as [E2 G2]. rewrite E1 in E2. injection E2 as <-.
      rewrite G1 in G2. discriminate G2.
    + split; [exact Hi1|]. split; [exact Hv|exact Hn].
  - destruct (findGroup "Personal" (fst st1)) as [[pIndex pg']|] eqn:Ep'.
    + set (g := mkGroup "Investments" ["Mutual Funds"; "Stocks"]).
      set (cats2 := take pIndex (fst st1) ++ g :: drop pIndex (fst st1)).
      assert (Hit : forall x, In x (allItems stored) -> In x (allItems cats2))
        by (intros x Hx; apply allItems_insert_middle, Hi1, Hx).
      assert (Hv : is_Some (findGroup "Investments" cats2)).
      { apply findGroup_is_Some. unfold cats2. rewrite map_app. apply in_app_iff.
        right. left. reflexivity. }
      assert (Hn : forall n, In n (map group stored) -> In n (map group cats2)).
      { intros n Hin. rewrite <- Hn1 in Hin. rewrite <- (take_drop pIndex (fst st1)) in Hin.
        unfold cats2. rewrite map_app in *. apply in_app_iff in Hin. apply in_app_iff.
        destruct Hin as [H|H]; [left; exact H|right; right; exact H]. }
      destruct (findGroup "Personal" stored) as [[p pg]|] eqn:Ep; [|discriminate HP].
      cbn in HP. injection HP as ->.
      cbn [fmap option_fmap option_map fst].
      apply (Hmoves (cats2, true)); try assumption. lia.
    + destruct (findGroup "Personal" stored) as [[p pg]|] eqn:Ep; [discriminate HP|].
      cbn [fmap option_fmap option_map fst].
      split; [|split].
      * intros x Hx. apply In_allItems_app. left. apply Hi1, Hx.
      * apply findGroup_is_Some. rewrite map_app. apply in_app_iff. right. left.
        reflexivity.
      * intros n Hin. rewrite map_app. apply in_app_iff. left. rewrite Hn1. exact Hin.
Qed.

(** * Storage: what each operation leaves alone *)

(** The part of the world the category operations never write. *)
Local Abbreviation sameLedger w w' :=
  (wt_users (localStorage w') = wt_users (localStorage w) /\
   wt_transactions (localStorage w') = wt_transactions (localStorage w)).

Lemma mutate_sameLedger r cats w : sameLedger w (snd (mutate r cats w)).
Proof. destruct r; split; reflexivity. Qed.

Lemma getCategories_sameLedger w : sameLedger w (snd (getCategories w)).
Proof.
  unfold getCategories. destruct (wt_categories (localStorage w)); [|split; reflexivity].
  destruct (migrate l) as [cats [|]]; split; reflexivity.
Qed.

Lemma ensureInvestorCategory_sameLedger investor w :
  sameLedger w (ensureInvestorCategory investor w).
Proof.
  unfold ensureInvestorCategory.
  pose proof (getCategories_sameLedger w) as H0.
  destruct (getCategories w) as [r0 w0]. cbn [snd] in H0.
  assert (H1 : forall r1 w1 gi,
             (match findGroup "Investor Payments" (deref w0 r0) with
              | Some (i, _) => (r0, w0, i)
              | None =>
                  let '(r, w') := mutate r0 (deref w0 r0 ++ [mkGroup "Investor Payments" []]) w0 in
                  (r, w', length (deref w0 r0))
              end) = (r1, w1, gi) -> sameLedger w w1).
  { intros r1 w1 gi. destruct (findGroup "Investor Payments" (deref w0 r0)) as [[i g]|].
    - intros [= <- <- <-]. exact H0.
    - pose proof (mutate_sameLedger r0 (deref w0 r0 ++ [mkGroup "Investor Payments" []]) w0) as Hm.
      destruct (mutate r0 _ w0) as [r w']. cbn [snd] in Hm.
      intros [= <- <- <-]. destruct H0 as [A B], Hm as [C D]. split; congruence. }
  destruct (match findGroup "Investor Payments" (deref w0 r0) with
            | Some (i, _) => (r0, w0, i)
            | None => _
            end) as [[r1 w1] gi].
  specialize (H1 r1 w1 gi eq_refl).
  destruct (deref w1 r1 !! gi) as [g|]; [|exact H1].
  destruct (existsb _ (items g)); [exact H1|].
  pose proof (mutate_sameLedger r1
                (<[gi := mkGroup (group g) (items g ++ [investor])]> (deref w1 r1)) w1) as Hm.
  destruct (mutate r1 _ w1) as [r2 w2]. cbn [snd] in Hm.
  unfold saveCategories, setCategories. cbn [localStorage wt_users wt_transactions].
  destruct H1 as [A B], Hm as [C D]. split; congruence.
Qed.

(** X5: the category operations never write the users or the transactions,
    and the user and transaction operations never write the categories,
    neither the stored ones nor the defaults in memory. *)
Theorem storage_operations_keep_to_their_key (w : World) :
  (forall investor, sameLedger w (ensureInvestorCategory investor w)) /\
  sameLedger w (snd (getCategories w)) /\
  sameLedger w (snd (resetCategories w)) /\
  (forall cats, sameLedger w (saveCategories cats w)) /\
  (forall w', (exists uuid nowMs tx, w' = snd (addTransaction uuid nowMs tx w)) \/
              (exists tx, w' = updateTransaction tx w) \/
              (exists id, w' = deleteTransaction id w) \/
              (exists uuid nowMs n, w' = snd (saveUser uuid nowMs n w)) ->
     wt_categories (localStorage w') = wt_categories (localStorage w) /\
     defaultCategories w' = defaultCategories w) /\
  (forall w', (exists uuid nowMs tx, w' = snd (addTransaction uuid nowMs tx w)) \/
              (exists tx, w' = updateTransaction tx w) \/
              (exists id, w' = deleteTransaction id w) ->
     getUsers w' = getUsers w) /\
  (forall uuid nowMs n uid,
     getTransactions uid (snd (saveUser uuid nowMs n w)) = getTransactions uid w).
Proof.
  split; [intros investor; apply ensureInvestorCategory_sameLedger|].
  split; [apply getCategories_sameLedger|].
  split; [split; reflexivity|].
  split; [intros cats; split; reflexivity|].
  split; [|split].
  - intros w' [(uuid & nowMs & tx & ->)|[(tx & ->)|[(id & ->)|(uuid & nowMs & n & ->)]]].
    + split; reflexivity.
    + unfold updateTransaction. destruct (wt_transactions (localStorage w)) as [parsed|];
        [|split; reflexivity].
      destruct (list_find _ parsed) as [[i x]|]; split; reflexivity.
    + unfold deleteTransaction. destruct (wt_transactions (localStorage w));
        split; reflexivity.
    + split; reflexivity.
  - intros w' [(uuid & nowMs & tx & ->)|[(tx & ->)|(id & ->)]].
    + reflexivity.
    + unfold updateTransaction. destruct (wt_transactions (localStorage w)) as [parsed|];
        [|reflexivity].
      destruct (list_find _ parsed) as [[i x]|]; reflexivity.
    + unfold deleteTransaction. destruct (wt_transactions (localStorage w)); reflexivity.
  - reflexivity.
Qed.

(** X6: [saveUser] appends: the users read back are the old ones followed by
    the new one, which carries the given name and the fresh id and time. *)
Theorem saveUser_then_getUsers (uuid : string) (nowMs : Z) (n : string) (w : World) :
  getUsers (snd (saveUser uuid nowMs n w)) = getUsers w ++ [fst (saveUser uuid nowMs n w)] /\
  fst (saveUser uuid nowMs n w) = mkUser uuid n nowMs /\
  forall uuid' nowMs' n',
    getUsers (snd (saveUser uuid' nowMs' n' (snd (saveUser uuid nowMs n w))))
    = getUsers w ++ [mkUser uuid n nowMs; mkUser uuid' n' nowMs'].
Proof.
  split; [reflexivity|]. split; [reflexivity|].
  intros uuid' nowMs' n'. unfold saveUser, getUsers, setUsers.
  cbn [snd fst localStorage wt_users]. rewrite <- app_assoc. reflexivity.
Qed.

(** * Storage: [updateTransaction] *)

Lemma list_find_id_None (id : string) (l : list Transaction) :
  list_find (fun t => tx_id t = id) l = None <-> forall t, In t l -> tx_id t <> id.
Proof.
  rewrite list_find_None, Forall_forall. split.
  - intros H t Ht. apply H, list_elem_of_In, Ht.
  - intros H t Ht. apply H, list_elem_of_In, Ht.
Qed.

Lemma insert_first_match_map (u : Transaction) (l : list Transaction) i x :
  NoDup (map tx_id l) ->
  list_find (fun t => tx_id t = tx_id u) l = Some (i, x) ->
  <[i := u]> l = map (fun t => if String.eqb (tx_id t) (tx_id u) then u else t) l.
Proof.
  revert i. induction l as [|y l IH]; intros i Hnd Hf; [discriminate Hf|].
  cbn [map] in Hnd. apply NoDup_cons in Hnd. destruct Hnd as [Hy Hnd].
  cbn [list_find] in Hf. destruct (decide (tx_id y = tx_id u)) as [E|E].
  - injection Hf as <- <-. cbn [insert list_insert map].
    rewrite (proj2 (String.eqb_eq _ _) E). f_equal.
    rewrite <- (map_id l) at 1. apply map_ext_in. intros t Ht.
    destruct (String.eqb_spec (tx_id t) (tx_id u)) as [E'|_]; [|reflexivity].
    exfalso. apply Hy. rewrite E, <- E'. apply list_elem_of_In, in_map, Ht.
  - destruct (list_find (fun t => tx_id t = tx_id u) l) as [[j z]|] eqn:Ej;
      [|discriminate Hf].
    cbn in Hf. injection Hf as <- <-. cbn [insert list_insert map].
    rewrite (proj2 (String.eqb_neq _ _) E). f_equal. apply (IH j Hnd eq_refl).
Qed.

Lemma NoDup_map_injective {A B} (f : A -> B) (l : list A) a b :
  NoDup (map f l) -> In a l -> In b l -> f a = f b -> a = b.
Proof.
  induction l as [|y l IH]; [intros _ []|].
  cbn [map]. intros Hnd Ha Hb E. apply NoDup_cons in Hnd. destruct Hnd as [Hy Hnd].
  destruct Ha as [->|Ha], Hb as [->|Hb].
  - reflexivity.
  - exfalso. apply Hy. rewrite E. apply list_elem_of_In, in_map, Hb.
  - exfalso. apply Hy. rewrite <- E. apply list_elem_of_In, in_map, Ha.
  - apply IH; assumption.
Qed.

(** X7: [updateTransaction] keeps the number and the order of the stored
    transactions; it changes nothing when no stored transaction has the id,
    and when the stored ids are distinct it replaces exactly the
    transaction with that id. *)
Theorem updateTransaction_replaces_by_id (updatedTx : Transaction) (w : World) :
  length (parsedTransactions (updateTransaction updatedTx w))
  = length (parsedTransactions w) /\
  ((forall t, In t (parsedTransactions w) -> tx_id t <> tx_id updatedTx) ->
   updateTransaction updatedTx w = w) /\
  (NoDup (map tx_id (parsedTransactions w)) ->
   parsedTransactions (updateTransaction updatedTx w)
   = map (fun t => if String.eqb (tx_id t) (tx_id updatedTx) then updatedTx else t)
         (parsedTransactions w)) /\
  (In updatedTx (parsedTransactions w) ->
   NoDup (map tx_id (parsedTransactions w)) ->
   parsedTransactions (updateTransaction updatedTx w) = parsedTransactions w).
Proof.
  unfold updateTransaction, parsedTransactions.
  destruct (wt_transactions (localStorage w)) as [parsed|] eqn:Ew.
  2:{ rewrite Ew. repeat split; reflexivity. }
  assert (Hmap : NoDup (map tx_id parsed) ->
            match list_find (fun t => tx_id t = tx_id updatedTx) parsed with
            | Some (index, _) => <[index := updatedTx]> parsed
            | None => parsed
            end
            = map (fun t => if String.eqb (tx_id t) (tx_id updatedTx) then updatedTx else t)
                  parsed).
  { intros Hnd. destruct (list_find _ parsed) as [[i x]|] eqn:Ef.
    - apply (insert_first_match_map updatedTx parsed i x Hnd Ef).
    - rewrite <- (map_id parsed) at 1. apply map_ext_in. intros t Ht.
      destruct (String.eqb_spec (tx_id t) (tx_id updatedTx)) as [E|_]; [|reflexivity].
      exfalso. exact (proj1 (list_find_id_None _ _) Ef t Ht E). }
  destruct (list_find (fun t => tx_id t = tx_id updatedTx) parsed) as [[i x]|] eqn:Ef.
  - cbn [setTransactions localStorage wt_transactions].
    split; [apply length_insert|]. split; [|split].
    + intros H. exfalso. apply list_find_Some in Ef. destruct Ef as (Hl & Hx & _).
      apply (H x); [|exact Hx]. apply list_elem_of_In. eapply list_elem_of_lookup_2, Hl.
    + exact Hmap.
    + intros Hin Hnd. rewrite (Hmap Hnd).
      rewrite <- (map_id parsed) at 2. apply map_ext_in. intros t Ht.
      destruct (String.eqb_spec (tx_id t) (tx_id updatedTx)) as [E|_]; [|reflexivity].
      symmetry. apply (NoDup_map_injective tx_id parsed t updatedTx Hnd Ht Hin E).
  - rewrite Ew. split; [reflexivity|]. split; [reflexivity|]. split; [exact Hmap|].
    reflexivity.
Qed.

(** * Storage: the defaults handed out by reference *)

Lemma ensureInvestorCategory_on_defaults investor w :
  wt_categories (localStorage w) = None ->
  wt_categories (localStorage (ensureInvestorCategory investor w))
  = Some (defaultCategories (ensureInvestorCategory investor w)).
Proof.
  intros Hw. unfold ensureInvestorCategory, getCategories. rewrite Hw.
  cbn [deref setCategories defaultCategories].
  destruct (findGroup "Investor Payments" (defaultCategories w)) as [[i g]|] eqn:Eg.
  - change (deref (setCategories (defaultCategories w) w) DefaultsRef)
      with (defaultCategories w).
    destruct (defaultCategories w !! i) as [g'|]; [|reflexivity].
    destruct (existsb _ (items g')); reflexivity.
  - unfold mutate, setCategories. cbn [deref defaultCategories localStorage].
    rewrite list_lookup_middle by reflexivity.
    cbn [items existsb]. reflexivity.
Qed.

(** X8: with no categories stored, [ensureInvestorCategory] writes the name
    into the [DEFAULT_CATEGORIES] array itself: what is stored afterwards is
    that array, and [resetCategories] then restores defaults that still
    hold the investor's name. *)
Theorem ensureInvestorCategory_changes_the_defaults_in_memory
    (investor : string) (w : World) :
  wt_categories (localStorage w) = None ->
  let w' := ensureInvestorCategory investor w in
  let old := investorItems (defaultCategories w) in
  wt_categories (localStorage w') = Some (defaultCategories w') /\
  investorItems (defaultCategories w')
  = (if existsb (fun item => sameName item investor) old
     then old else old ++ [investor]) /\
  deref (snd (resetCategories w')) (fst (resetCategories w')) = defaultCategories w' /\
  wt_categories (localStorage (snd (resetCategories w'))) = Some (defaultCategories w') /\
  (existsb (fun item => sameName item investor) old = false ->
   In investor (investorItems (deref (snd (resetCategories w')) (fst (resetCategories w')))) /\
   defaultCategories w' <> defaultCategories w).
Proof.
  intros Hw w' old.
  pose proof (ensureInvestorCategory_on_defaults investor w Hw) as Hs.
  destruct (ensureInvestorCategory_stored investor w) as (cats & Hc & _ & Hi & _).
  unfold getCategories in Hi. rewrite Hw in Hi. cbn [fst snd deref setCategories defaultCategories] in Hi.
  fold w' in Hs, Hc. rewrite Hs in Hc. injection Hc as <-. fold old in Hi.
  split; [exact Hs|]. split; [exact Hi|].
  split; [reflexivity|]. split; [reflexivity|].
  intros He. cbn [resetCategories fst snd deref setCategories defaultCategories].
  rewrite He in Hi. split.
  - rewrite Hi. apply in_app_iff. right. left. reflexivity.
  - intros E. rewrite E in Hi. fold old in Hi.
    apply (f_equal (@length string)) in Hi. rewrite length_app in Hi. cbn in Hi. lia.
Qed.

Lemma ensureInvestorCategory_changes_the_defaults_in_memory_witness :
  In "Bob"%string
     (investorItems
        (deref (snd (resetCategories (ensureInvestorCategory "Bob" Samples.empty_world)))
               (fst (resetCategories (ensureInvestorCategory "Bob" Samples.empty_world))))).
Proof.
  apply (ensureInvestorCategory_changes_the_defaults_in_memory "Bob" Samples.empty_world);
    reflexivity.
Defined.

(** * The ledger lists every due period *)

Section LedgerComplete.

Variable tz : Z.
Variable now : Z.

Local Abbreviation pDate t months n :=
  (periodDate tz (isoY (date t)) (isoM (date t)) (isoD (date t)) months n).

Lemma pastMaturity_mono mat a b :
  a <= b -> pastMaturity mat b = false -> pastMaturity mat a = false.
Proof.
  unfold pastMaturity. destruct mat as [m|]; [|reflexivity].
  intros Hab Hb. apply Z.ltb_ge in Hb. apply Z.ltb_ge. lia.
Qed.

(** With fuel to spare, the loop started at period [multiplier] has an
    entry at index [k] exactly when period [multiplier + k] is due today
    and, unless it is the first one tested, not after the maturity date. *)
Lemma interestLoop_is_Some fuel t inv interest months multiplier count k :
  1 <= isoD (date t) <= 31 -> 1 <= months ->
  (k < fuel)%nat ->
  is_Some (interestLoop tz now fuel t inv interest months
             (pDate t months multiplier) multiplier count !! k) <->
  pDate t months (multiplier + Z.of_nat k) <= InvestorDashboard.today tz now /\
  (k = O \/
   pastMaturity (maturityDate inv) (pDate t months (multiplier + Z.of_nat k)) = false).
Proof.
  intros HsD Hmonths. revert fuel multiplier count.
  induction k as [|k IH]; intros fuel multiplier count Hk;
    (destruct fuel as [|fuel]; [lia|]); cbn [interestLoop].
  - change (Z.of_nat 0) with 0. rewrite Z.add_0_r.
    destruct (Z.leb_spec (pDate t months multiplier) (InvestorDashboard.today tz now)) as [Hle|Hgt].
    + destruct (pastMaturity _ _); cbn [lookup list_lookup];
        (split; [intros _; split; [exact Hle|left; reflexivity]
                |intros _; eexists; reflexivity]).
    + cbn [lookup list_lookup]. split; [intros [x Hx]; discriminate Hx|].
      intros [H _]. lia.
  - replace (multiplier + Z.of_nat (S k)) with (multiplier + 1 + Z.of_nat k) by lia.
    pose proof (periodDate_le tz (isoY (date t)) (isoM (date t)) (isoD (date t))
                  months multiplier (multiplier + 1 + Z.of_nat k) HsD Hmonths
                  ltac:(lia)) as Hm1.
    pose proof (periodDate_le tz (isoY (date t)) (isoM (date t)) (isoD (date t))
                  months (multiplier + 1) (multiplier + 1 + Z.of_nat k) HsD Hmonths
                  ltac:(lia)) as Hm2.
    specialize (IH fuel (multiplier + 1) (count + 1) ltac:(lia)).
    destruct (Z.leb_spec (pDate t months multiplier) (InvestorDashboard.today tz now)) as [Hle|Hgt].
    + destruct (pastMaturity (maturityDate inv) (pDate t months (multiplier + 1)))
        eqn:Epm; cbn [lookup list_lookup].
      * split; [intros [x Hx]; destruct k; discriminate Hx|].
        intros [_ [Hk0|Hp]]; [discriminate Hk0|].
        rewrite (pastMaturity_mono _ _ _ Hm2 Hp) in Epm. discriminate Epm.
      * rewrite IH. split.
        -- intros [Hd [H0|Hp]]; (split; [exact Hd|right]); [|exact Hp].
           subst k. change (Z.of_nat 0) with 0. rewrite Z.add_0_r. exact Epm.
        -- intros [Hd [H0|Hp]]; [discriminate H0|].
           split; [exact Hd|right; exact Hp].
    + cbn [lookup list_lookup]. split; [intros [x Hx]; discriminate Hx|].
      intros [Hd _]. lia.
Qed.

Lemma interestLoop_not_after_today fuel t inv interest months nextDate multiplier count e :
  In e (interestLoop tz now fuel t inv interest months nextDate multiplier count) ->
  timestamp (vtx e) <= InvestorDashboard.today tz now.
Proof.
  revert nextDate multiplier count.
  induction fuel as [|fuel IH]; intros nextDate multiplier count;
    cbn [interestLoop]; [intros []|].
  destruct (Z.leb_spec nextDate (InvestorDashboard.today tz now)) as [Hle|_]; [|intros []].
  destruct (pastMaturity (maturityDate inv) (pDate t months (multiplier + 1))).
  - intros [<-|[]]. exact Hle.
  - intros [<-|Hin]; [exact Hle|]. exact (IH _ _ _ Hin).
Qed.

Lemma Qsum_constant {A} (f : A -> Q) (c : Q) (l : list A) :
  (forall x, In x l -> f x = c) ->
  (Spec.Qsum (map f l) == inject_Z (Z.of_nat (length l)) * c)%Q.
Proof.
  induction l as [|x l IH]; intros H.
  - cbn. ring.
  - cbn [map length]. rewrite Qsum_cons, IH by (intros y Hy; apply H; right; exact Hy).
    rewrite (H x (or_introl eq_refl)), Nat2Z.inj_succ. unfold Z.succ.
    rewrite inject_Z_plus. ring.
Qed.

(** X9: for a plan with periodic interest the ledger has an entry number
    [N + 1] exactly when the date of period [N + 1] is not after the end of
    today and, except for the first period, not after the maturity date; the
    entries are in strictly increasing date order, none after today, and
    together they amount to the interest of one period times their number. *)
Theorem ledger_lists_exactly_the_due_periods
    (t : Transaction) (inv : InvestorDetails) (N : nat) :
  investorDetails t = Some inv -> returnPeriod inv <> Maturity ->
  truthy (roi inv) = true -> (0 < ledgerInterestAmount t inv)%Q ->
  1 <= isoD (date t) <= 31 ->
  let months := monthsToAdd (returnPeriod inv) in
  let entries := generateInterestEntries tz now t in
  (is_Some (entries !! N) <->
   pDate t months (Z.of_nat N + 1) <= InvestorDashboard.today tz now /\
   (N = O \/
    pastMaturity (maturityDate inv) (pDate t months (Z.of_nat N + 1)) = false)) /\
  (forall i j ei ej, (i < j)%nat ->
     entries !! i = Some ei -> entries !! j = Some ej ->
     timestamp (vtx ei) < timestamp (vtx ej) /\ timestamp (vtx ej) <= InvestorDashboard.today tz now) /\
  (Spec.Qsum (map (fun e => amount (vtx e)) entries)
   == inject_Z (Z.of_nat (length entries)) * ledgerInterestAmount t inv)%Q.
Proof.
  intros Hinv Hper Hroi Hpos HsD months entries.
  assert (Hmonths : 1 <= months) by (unfold months; destruct (returnPeriod inv);
                                     cbn; try lia; congruence).
  assert (Hloop : forall extra,
             entries = interestLoop tz now (interestFuel tz now t + extra) t inv
                         (ledgerInterestAmount t inv) months (pDate t months 1) 1 1).
  { intros extra. unfold months.
    rewrite (generateInterestEntries_fuel tz now extra t inv Hinv HsD Hmonths).
    unfold entries, generateInterestEntries. rewrite Hinv, Hroi. cbn [negb].
    destruct (Qle_bool (ledgerInterestAmount t inv) 0) eqn:Eq.
    { apply Qle_bool_iff in Eq. exfalso. exact (Qlt_not_le _ _ Hpos Eq). }
    destruct (ReturnPeriod_eqb (returnPeriod inv) Maturity) eqn:Ep.
    { destruct (returnPeriod inv); try discriminate Ep. congruence. }
    destruct (Z.eqb_spec (monthsToAdd (returnPeriod inv)) 0) as [E0|_];
      [fold months in E0; lia|].
    reflexivity. }
  split; [|split].
  - rewrite (Hloop (S N)).
    rewrite (interestLoop_is_Some (interestFuel tz now t + S N) t inv
               (ledgerInterestAmount t inv) months 1 1 N HsD Hmonths ltac:(lia)).
    replace (1 + Z.of_nat N) with (Z.of_nat N + 1) by lia. reflexivity.
  - intros i j ei ej Hij Hi Hj.
    rewrite (Hloop O) in Hi, Hj. split.
    + apply interestLoop_lookup in Hi, Hj.
      destruct Hi as (Hti & _), Hj as (Htj & _). rewrite Hti, Htj.
      apply periodDate_lt; [exact HsD|exact Hmonths|lia].
    + eapply interestLoop_not_after_today.
      apply list_elem_of_In. eapply list_elem_of_lookup_2. exact Hj.
  - apply Qsum_constant. intros e He.
    apply list_elem_of_In, list_elem_of_lookup_1 in He. destruct He as [i Hi].
    rewrite (Hloop O) in Hi. apply interestLoop_lookup in Hi. apply Hi.
Qed.

End LedgerComplete.

Lemma ledger_lists_exactly_the_due_periods_witness :
  let entries :=
    generateInterestEntries 330 (Date_ymd 330 2024 3 15) Samples.monthly_six_months in
  (Spec.Qsum (map (fun e => amount (vtx e)) entries)
   == inject_Z (Z.of_nat (length entries)) * 1000)%Q.
Proof.
  refine (proj2 (proj2 (ledger_lists_exactly_the_due_periods 330 (Date_ymd 330 2024 3 15)
            Samples.monthly_six_months
            (mkInvestorDetails "Asha" 12 Monthly 6 (Some (mkIso 2024 7 15))
                               None (Some 1000%Q))
            O eq_refl _ eq_refl eq_refl _))).
  - discriminate.
  - cbn. lia.
Defined.
